(** * Interaction and readiness core of the 3D scene page

    A shallow embedding of the two script variants of the page:
    [main.js] (module [MainJs]) and the earlier script kept next to it
    (module [Part000]).  JavaScript numbers are modelled by exact
    rationals ([Q]); comparisons are the boolean tests the script performs.
    The module-level [let]/[const] bindings of the script become record
    fields that are passed to and returned from every handler. *)

From Stdlib Require Import QArith Qabs Qminmax Qround Lqa Lia PrimFloat.
From stdpp Require Import gmap strings list pretty.

Local Open Scope Q_scope.

(** ** Numbers *)

Module Js.

(** [a > b], [a < b], [a >= b], [a <= b] on numbers. *)
Definition gt (a b : Q) : bool := negb (Qle_bool a b).
Definition lt (a b : Q) : bool := negb (Qle_bool b a).
Definition ge (a b : Q) : bool := Qle_bool b a.
Definition le (a b : Q) : bool := Qle_bool a b.

End Js.

Module Math.

Definition max (a b : Q) : Q := Qmax a b.
Definition min (a b : Q) : Q := Qmin a b.
Definition abs (a : Q) : Q := Qabs a.

End Math.

(** [Math.max(lo, Math.min(hi, v))], the clamping idiom of both scripts. *)
Definition clamp (lo hi v : Q) : Q := Math.max lo (Math.min hi v).

(** ** THREE.Vector3 *)

Module Vector3.

Record t : Type := mk { x : Q; y : Q; z : Q }.

Definition clone (v : t) : t := v.

Definition add (v w : t) : t :=
  mk (x v + x w) (y v + y w) (z v + z w).

Definition multiplyScalar (v : t) (s : Q) : t :=
  mk (x v * s) (y v * s) (z v * s).

Definition addScaledVector (v w : t) (s : Q) : t :=
  mk (x v + x w * s) (y v + y w * s) (z v + z w * s).

Definition setX (v : t) (a : Q) : t := mk a (y v) (z v).
Definition setZ (v : t) (a : Q) : t := mk (x v) (y v) a.

End Vector3.

(** ** Module state shared by the handlers *)

(** [keyStates]; the field for [S] cannot keep its one-letter name. *)
Record KeyStates : Type := mkKeys {
  keyW : bool; keyA : bool; keyS : bool; keyD : bool
}.

(** [keyStates], [scrollVelocityX], [touchStartY] and [isTouching]. *)
Record InputState : Type := mkInput {
  keyStates : KeyStates;
  scrollVelocityX : Q;
  touchStartY : Q;
  isTouching : bool
}.

(** What one animation frame reads from its host: [clock.getDelta()] and the
    camera's forward and right axes, recomputed from the live camera. *)
Record FrameEnv : Type := mkEnv {
  delta : Q;
  forward : Vector3.t;
  right : Vector3.t
}.

(** The rectangle the camera is confined to. *)
Record Bounds : Type := mkBounds {
  minCameraX : Q; maxCameraX : Q; minCameraZ : Q; maxCameraZ : Q
}.

Definition in_bounds (b : Bounds) (p : Vector3.t) : Prop :=
  minCameraX b <= Vector3.x p <= maxCameraX b /\
  minCameraZ b <= Vector3.z p <= maxCameraZ b.

Definition well_formed (b : Bounds) : Prop :=
  minCameraX b <= maxCameraX b /\ minCameraZ b <= maxCameraZ b.

(** The clamp applied to the camera when the scene is loaded. *)
Definition clampInitial (b : Bounds) (p : Vector3.t) : Vector3.t :=
  let p1 := Vector3.setX p (clamp (minCameraX b) (maxCameraX b) (Vector3.x p)) in
  Vector3.setZ p1 (clamp (minCameraZ b) (maxCameraZ b) (Vector3.z p1)).

(** The four key branches of the camera movement, in source order. *)
Definition wasdPotential (k : KeyStates) (e : FrameEnv) (dist : Q)
    (p : Vector3.t) : Vector3.t :=
  let p0 := Vector3.clone p in
  let p1 := if keyW k then Vector3.addScaledVector p0 (forward e) dist else p0 in
  let p2 := if keyS k then Vector3.addScaledVector p1 (forward e) (- dist) else p1 in
  let p3 := if keyA k then Vector3.addScaledVector p2 (right e) (- dist) else p2 in
  if keyD k then Vector3.addScaledVector p3 (right e) dist else p3.

Definition movedWASD (k : KeyStates) : bool :=
  keyW k || keyS k || keyA k || keyD k.

(** The part of the page the input listeners and the camera block of
    [animate] read and write. *)
Record World : Type := mkWorld {
  isCameraLoaded : bool;
  sceneReady : bool;
  input : InputState;
  position : Vector3.t
}.

Definition setInput (w : World) (i : InputState) : World :=
  mkWorld (isCameraLoaded w) (sceneReady w) i (position w).

Inductive KeyCode : Type := KeyW | KeyA | KeyS | KeyD | KeyOther.

(** What the host delivers: DOM input events and animation frames. *)
Inductive Event : Type :=
| keydown (code : KeyCode)
| keyup (code : KeyCode)
| wheel (deltaY : Q)
| touchstart (touches : list Q)
| touchmove (touches : list Q)
| touchend (touches : list Q)
| frame (e : FrameEnv).

Definition setKey (k : KeyStates) (c : KeyCode) (b : bool) : KeyStates :=
  match c with
  | KeyW => mkKeys b (keyA k) (keyS k) (keyD k)
  | KeyA => mkKeys (keyW k) b (keyS k) (keyD k)
  | KeyS => mkKeys (keyW k) (keyA k) b (keyD k)
  | KeyD => mkKeys (keyW k) (keyA k) (keyS k) b
  | KeyOther => k
  end.

(** The [keydown] and [keyup] listeners, the same in both scripts. *)
Definition onKeyDown (w : World) (c : KeyCode) : World :=
  let i := input w in
  setInput w (mkInput (setKey (keyStates i) c true) (scrollVelocityX i)
                (touchStartY i) (isTouching i)).

Definition onKeyUp (w : World) (c : KeyCode) : World :=
  let i := input w in
  setInput w (mkInput (setKey (keyStates i) c false) (scrollVelocityX i)
                (touchStartY i) (isTouching i)).

Module MainJs.

Definition moveSpeed : Q := 3.0.
Definition scrollSensitivity : Q := 0.01.
Definition touchScrollSensitivity : Q := 0.01.
Definition scrollDamping : Q := 0.75.
Definition scrollEpsilon : Q := 0.0001.

Definition bounds : Bounds := mkBounds (-50) 50 (-1.75) 1.75.

(** Where the fallback camera is put when the model file holds none: a new
    [PerspectiveCamera] with [position.z = 5]; that position is not clamped. *)
Definition fallbackCameraPosition : Vector3.t := Vector3.mk 0 0 5.

(** The WASD block: the potential position, clamped on each axis, becomes
    the camera position when a key is down. *)
Definition wasdMovement (e : FrameEnv) (i : InputState) (pos : Vector3.t)
    : Vector3.t :=
  let wasdMoveDistance := moveSpeed * delta e in
  let potentialPositionWASD :=
    wasdPotential (keyStates i) e wasdMoveDistance pos in
  if movedWASD (keyStates i) then
    let q1 := Vector3.setX potentialPositionWASD
                (clamp (minCameraX bounds) (maxCameraX bounds)
                   (Vector3.x potentialPositionWASD)) in
    Vector3.setZ q1
      (clamp (minCameraZ bounds) (maxCameraZ bounds) (Vector3.z q1))
  else pos.

(** [moveVector] and [potentialPositionScroll] of the scroll block. *)
Definition moveVector (e : FrameEnv) (i : InputState) : Vector3.t :=
  let scrollMoveStep := scrollVelocityX i * delta e in
  Vector3.multiplyScalar (Vector3.clone (right e)) scrollMoveStep.

Definition potentialPositionScroll (e : FrameEnv) (i : InputState)
    (pos : Vector3.t) : Vector3.t :=
  Vector3.add (Vector3.clone pos) (moveVector e i).

(** The bounds check of the scroll block, with its strict inequalities. *)
Definition strictlyInside (p : Vector3.t) : bool :=
  Js.gt (Vector3.x p) (minCameraX bounds)
  && Js.lt (Vector3.x p) (maxCameraX bounds)
  && Js.gt (Vector3.z p) (minCameraZ bounds)
  && Js.lt (Vector3.z p) (maxCameraZ bounds).

(** The scroll block, run on the position the WASD block left. *)
Definition scrollMovement (e : FrameEnv) (i : InputState) (pos1 : Vector3.t)
    : InputState * Vector3.t :=
  if Js.gt (Math.abs (scrollVelocityX i)) scrollEpsilon then
    if strictlyInside (potentialPositionScroll e i pos1) then
      let pos2 := Vector3.add pos1 (moveVector e i) in
      let v := if negb (isTouching i)
               then scrollVelocityX i * scrollDamping
               else scrollVelocityX i in
      (mkInput (keyStates i) v (touchStartY i) (isTouching i), pos2)
    else
      let q1 := Vector3.setX pos1
                  (clamp (minCameraX bounds) (maxCameraX bounds)
                     (Vector3.x (potentialPositionScroll e i pos1))) in
      let pos2 := Vector3.setZ q1
                    (clamp (minCameraZ bounds) (maxCameraZ bounds)
                       (Vector3.z (potentialPositionScroll e i pos1))) in
      (mkInput (keyStates i) 0 (touchStartY i) (isTouching i), pos2)
  else
    (mkInput (keyStates i) 0 (touchStartY i) (isTouching i), pos1).

(** The [if (isCameraLoaded) { ... }] block of [animate]: input state and
    camera position after one frame. *)
Definition cameraMovement (e : FrameEnv) (i : InputState) (pos : Vector3.t)
    : InputState * Vector3.t :=
  scrollMovement e i (wasdMovement e i pos).

(** The wheel listener. *)
Definition onWheel (w : World) (deltaY : Q) : World :=
  if negb (isCameraLoaded w) || negb (sceneReady w) then w
  else
    let i := input w in
    setInput w (mkInput (keyStates i)
                  (scrollVelocityX i + deltaY * scrollSensitivity)
                  (touchStartY i) (isTouching i)).

(** [onTouchStart]; [touches] lists the [clientY] of [event.touches]. *)
Definition onTouchStart (w : World) (touches : list Q) : World :=
  if negb (isCameraLoaded w) || negb (sceneReady w) then w
  else if (length touches =? 1)%nat then
    let i := input w in
    setInput w (mkInput (keyStates i) (scrollVelocityX i)
                  (hd 0 touches) true)
  else w.

Definition onTouchMove (w : World) (touches : list Q) : World :=
  let i := input w in
  if negb (isCameraLoaded w) || negb (sceneReady w)
     || negb (isTouching i) || negb (length touches =? 1)%nat
  then
    setInput w (mkInput (keyStates i) (scrollVelocityX i) (touchStartY i)
                  (length touches =? 1)%nat)
  else
    let currentTouchY := hd 0 touches in
    let deltaY := currentTouchY - touchStartY i in
    setInput w (mkInput (keyStates i)
                  (scrollVelocityX i - deltaY * touchScrollSensitivity)
                  currentTouchY (isTouching i)).

Definition onTouchEnd (w : World) (touches : list Q) : World :=
  let i := input w in
  if isTouching i && (length touches =? 0)%nat then
    setInput w (mkInput (keyStates i) (scrollVelocityX i) (touchStartY i) false)
  else w.

(** The camera part of [animate], behind the guard that opens it. *)
Definition animateCamera (w : World) (e : FrameEnv) : World :=
  if negb (sceneReady w) || negb (isCameraLoaded w) then w
  else if isCameraLoaded w then
    let '(i, p) := cameraMovement e (input w) (position w) in
    mkWorld (isCameraLoaded w) (sceneReady w) i p
  else w.

Definition step (w : World) (ev : Event) : World :=
  match ev with
  | keydown c => onKeyDown w c
  | keyup c => onKeyUp w c
  | wheel dy => onWheel w dy
  | touchstart ts => onTouchStart w ts
  | touchmove ts => onTouchMove w ts
  | touchend ts => onTouchEnd w ts
  | frame e => animateCamera w e
  end.

End MainJs.

(** ** The earlier script *)

Module Part000.

Definition moveSpeed : Q := 3.0.
Definition scrollSensitivity : Q := 0.02.
Definition scrollDamping : Q := 0.60.
Definition scrollEpsilon : Q := 0.001.

Definition bounds : Bounds := mkBounds (-50) 50 (-1.45) 1.45.

Definition withinBounds (p : Vector3.t) : bool :=
  Js.ge (Vector3.x p) (minCameraX bounds)
  && Js.le (Vector3.x p) (maxCameraX bounds)
  && Js.ge (Vector3.z p) (minCameraZ bounds)
  && Js.le (Vector3.z p) (maxCameraZ bounds).

(** The [else] branches of both movement blocks clamp the position the
    camera already has. *)
Definition clampCurrent (p : Vector3.t) : Vector3.t :=
  clampInitial bounds p.

Definition wasdMovement (e : FrameEnv) (i : InputState) (pos : Vector3.t)
    : Vector3.t :=
  let wasdMoveDistance := moveSpeed * delta e in
  let potentialPositionWASD :=
    wasdPotential (keyStates i) e wasdMoveDistance pos in
  if movedWASD (keyStates i) then
    if withinBounds potentialPositionWASD then potentialPositionWASD
    else clampCurrent pos
  else pos.

Definition moveVector (e : FrameEnv) (i : InputState) : Vector3.t :=
  let scrollMoveDistance := scrollVelocityX i * delta e in
  Vector3.multiplyScalar (Vector3.clone (right e)) scrollMoveDistance.

Definition potentialPositionScroll (e : FrameEnv) (i : InputState)
    (pos : Vector3.t) : Vector3.t :=
  Vector3.add (Vector3.clone pos) (moveVector e i).

Definition scrollMovement (e : FrameEnv) (i : InputState) (pos1 : Vector3.t)
    : InputState * Vector3.t :=
  if Js.gt (Math.abs (scrollVelocityX i)) scrollEpsilon then
    let '(pos2, v1, appliedScrollMovement) :=
      if withinBounds (potentialPositionScroll e i pos1)
      then (Vector3.add pos1 (moveVector e i), scrollVelocityX i, true)
      else (clampCurrent pos1, 0, false) in
    let v2 :=
      if appliedScrollMovement || Js.gt (Math.abs v1) scrollEpsilon
      then v1 * scrollDamping else 0 in
    (mkInput (keyStates i) v2 (touchStartY i) (isTouching i), pos2)
  else
    (mkInput (keyStates i) 0 (touchStartY i) (isTouching i), pos1).

Definition cameraMovement (e : FrameEnv) (i : InputState) (pos : Vector3.t)
    : InputState * Vector3.t :=
  scrollMovement e i (wasdMovement e i pos).

Definition onWheel (w : World) (deltaY : Q) : World :=
  if negb (isCameraLoaded w) || negb (sceneReady w) then w
  else
    let i := input w in
    setInput w (mkInput (keyStates i)
                  (scrollVelocityX i + deltaY * scrollSensitivity)
                  (touchStartY i) (isTouching i)).

(** [animate] only tests [sceneReady] here. *)
Definition animateCamera (w : World) (e : FrameEnv) : World :=
  if negb (sceneReady w) then w
  else
    let '(i, p) := cameraMovement e (input w) (position w) in
    mkWorld (isCameraLoaded w) (sceneReady w) i p.

(** This script registers no touch listener: touch events reach no
    handler. *)
Definition step (w : World) (ev : Event) : World :=
  match ev with
  | keydown c => onKeyDown w c
  | keyup c => onKeyUp w c
  | wheel dy => onWheel w dy
  | touchstart _ | touchmove _ | touchend _ => w
  | frame e => animateCamera w e
  end.

End Part000.

(** ** Choosing a script *)

Inductive Script : Type := main_js | part_000.

Definition bounds_of (s : Script) : Bounds :=
  match s with main_js => MainJs.bounds | part_000 => Part000.bounds end.







Definition step_of (s : Script) : World -> Event -> World :=
  match s with main_js => MainJs.step | part_000 => Part000.step end.

Definition run_of (s : Script) (w : World) (evs : list Event) : World :=
  fold_left (step_of s) evs w.

(** ** Sample inputs *)

Definition restingInput : InputState :=
  mkInput (mkKeys false false false false) 0 0 false.

Definition sampleEnv : FrameEnv :=
  mkEnv 0.1 (Vector3.mk 0 0 (-1)) (Vector3.mk 1 0 0).

(** ** Input events and frames, seen as a run *)

(** What the wheel and touch listeners test before doing anything. *)
Definition notReady (w : World) : Prop :=
  isCameraLoaded w = false \/ sceneReady w = false.







(** ** Hover arbitration: video playback and the info panel *)

(** The part of an [HTMLVideoElement] the scripts read and write. *)
Record Video : Type := mkVideo { muted : bool; paused : bool }.

Definition pause (v : Video) : Video := mkVideo (muted v) true.

(** [play()]; [starts] tells whether the browser lets playback begin (the
    promise it returns may also reject, which the scripts only log). *)
Definition play (starts : bool) (v : Video) : Video :=
  if starts then mkVideo (muted v) false else v.

Record InfoPanel : Type := mkPanel {
  innerHTML : string;
  styleLeft : Q;
  styleTop : Q;
  displayed : bool
}.

(** [videoElements] maps mesh names to their video elements; an element is
    referred to by the name it is stored under, so [currentlyHoveredVideo]
    and the map share it. *)
Record HoverState : Type := mkHover {
  videoElements : gmap string Video;
  videoMeshes : list string;
  currentlyHoveredVideo : option string;
  infoPanel : InfoPanel
}.

(** What one frame reads besides the hover state: the mesh names the
    raycaster returns (nearest first), the audio flag, the pointer, the
    size of the box the panel is laid out in when it is displayed with this
    frame's text, and the window. *)
Record HoverEnv : Type := mkHoverEnv {
  intersects : list string;
  audioContextResumed : bool;
  playStarts : bool;
  currentMouseX : Q;
  currentMouseY : Q;
  panelBoxWidth : Q;
  panelBoxHeight : Q;
  innerWidth : Q;
  innerHeight : Q
}.

(** [infoPanelElement.offsetWidth] and [offsetHeight].  The style sheet of
    [index.html] starts the panel with [display: none] and the scripts
    switch between [none] and [block]; an element that is not displayed has
    no layout box, and the DOM reports 0 for both. *)
Definition offsetWidth (panel : InfoPanel) (env : HoverEnv) : Q :=
  if displayed panel then panelBoxWidth env else 0.

Definition offsetHeight (panel : InfoPanel) (env : HoverEnv) : Q :=
  if displayed panel then panelBoxHeight env else 0.

(** Calls made on video elements, in order. *)
Inductive MediaCall : Type :=
| pauseCall (name : string)
| playCall (name : string).

Definition infoPanelData : gmap string string :=
  {[ "lanternBugfly_webm" :=
       "This is the Lantern Bugfly. It glows gently in the dark.";
     "lunaMoth_webm" :=
       "The Luna Moth, known for its ethereal beauty and large wings.";
     "tigerButterfly_webm" :=
       "A Tiger Butterfly, showcasing vibrant patterns." ]}%string.

Definition infoPanelOffsetX : Q := 15.
Definition infoPanelOffsetY : Q := -15.

(** A string is truthy when it is not empty. *)
Definition truthy (name : string) : bool := negb (String.eqb name "").

(** The raycasting block: the nearest intersected mesh, when a video element
    is stored under its name.  ([main.js] also tests [importedCamera], which
    is set whenever [animate] runs.) *)
Definition intersected (h : HoverState) (env : HoverEnv)
    : option (string * Video) :=
  if (0 <? length (videoMeshes h))%nat then
    match intersects env with
    | [] => None
    | name :: _ =>
        match videoElements h !! name with
        | Some video => Some (name, video)
        | None => None
        end
    end
  else None.

(** The playback block, the same in both scripts. *)
Definition controlPlayback (h : HoverState) (env : HoverEnv)
    (hit : option (string * Video)) : HoverState * list MediaCall :=
  match hit with
  | Some (name, video) =>
      if decide (currentlyHoveredVideo h = Some name) then (h, [])
      else
        let '(vs1, calls1) :=
          match currentlyHoveredVideo h with
          | Some prev => (alter pause prev (videoElements h), [pauseCall prev])
          | None => (videoElements h, [])
          end in
        let '(vs2, calls2) :=
          if audioContextResumed env || muted video
          then (alter (play (playStarts env)) name vs1, [playCall name])
          else (vs1, []) in
        (mkHover vs2 (videoMeshes h) (Some name) (infoPanel h),
         calls1 ++ calls2)
  | None =>
      match currentlyHoveredVideo h with
      | Some prev =>
          (mkHover (alter pause prev (videoElements h)) (videoMeshes h) None
             (infoPanel h), [pauseCall prev])
      | None => (h, [])
      end
  end.

(** Where the panel goes, before the final clamp.  The panel is measured
    as the frame finds it, before [style.display] is set. *)
Definition panelFlipped (panel : InfoPanel) (env : HoverEnv) : Q * Q :=
  let panelWidth := offsetWidth panel env in
  let panelHeight := offsetHeight panel env in
  let panelX := currentMouseX env + infoPanelOffsetX in
  let panelY := currentMouseY env + infoPanelOffsetY in
  let panelX :=
    if Js.gt (panelX + panelWidth) (innerWidth env)
    then currentMouseX env - panelWidth - infoPanelOffsetX else panelX in
  let panelY :=
    if Js.gt (panelY + panelHeight) (innerHeight env)
    then currentMouseY env - panelHeight - infoPanelOffsetY else panelY in
  (panelX, panelY).

(** [main.js] ends with [Math.max(0, .)], the earlier script with
    [if (panelX < 0) panelX = 0]. *)
Definition panelPosition (s : Script) (panel : InfoPanel) (env : HoverEnv)
    : Q * Q :=
  let '(panelX, panelY) := panelFlipped panel env in
  match s with
  | main_js => (Math.max 0 panelX, Math.max 0 panelY)
  | part_000 =>
      (if Js.lt panelX 0 then 0 else panelX,
       if Js.lt panelY 0 then 0 else panelY)
  end.

Definition noInfoText (s : Script) : string :=
  match s with
  | main_js => "Info not available."
  | part_000 => "No info available."
  end.

(** The info-panel block. *)
Definition controlInfoPanel (s : Script) (h : HoverState) (env : HoverEnv)
    (hit : option (string * Video)) : HoverState :=
  let shown :=
    match hit with
    | Some (name, _) => if truthy name then Some name else None
    | None => None
    end in
  let panel :=
    match shown with
    | Some name =>
        let '(panelX, panelY) := panelPosition s (infoPanel h) env in
        mkPanel (default (noInfoText s) (infoPanelData !! name))
          panelX panelY true
    | None =>
        mkPanel (innerHTML (infoPanel h)) (styleLeft (infoPanel h))
          (styleTop (infoPanel h)) false
    end in
  mkHover (videoElements h) (videoMeshes h) (currentlyHoveredVideo h) panel.

(** The hover part of [animate]: raycast, playback, info panel. *)
Definition animateHover (s : Script) (h : HoverState) (env : HoverEnv)
    : HoverState * list MediaCall :=
  let hit := intersected h env in
  let '(h1, calls) := controlPlayback h env hit in
  (controlInfoPanel s h1 env hit, calls).

Definition hoverRun (s : Script) (h : HoverState) (envs : list HoverEnv)
    : HoverState :=
  fold_left (fun h env => fst (animateHover s h env)) envs h.

(** ** Statements about the hover state *)

Definition playing (h : HoverState) (name : string) : Prop :=
  exists v, videoElements h !! name = Some v /\ paused v = false.

(** Only the video [currentlyHoveredVideo] refers to may be playing. *)
Definition exclusive (h : HoverState) : Prop :=
  forall name, playing h name -> currentlyHoveredVideo h = Some name.

(** The videos after the previous one, if any, was paused. *)
Definition pausedPrevious (h : HoverState) : gmap string Video :=
  match currentlyHoveredVideo h with
  | Some prev => alter pause prev (videoElements h)
  | None => videoElements h
  end.

(** The hover state once the three video meshes have been set up: every
    element is created muted and left paused. *)
Definition initialHover : HoverState :=
  mkHover
    (<["lanternBugfly_webm" := mkVideo true true]>
       (<["lunaMoth_webm" := mkVideo true true]>
          (<["tigerButterfly_webm" := mkVideo true true]> ∅)))
    ["lanternBugfly_webm"; "lunaMoth_webm"; "tigerButterfly_webm"]%string
    None
    (mkPanel "Placeholder Text" 0 0 false).

Definition pointerAt (hits : list string) (x y : Q) : HoverEnv :=
  mkHoverEnv hits false true x y 200 50 800 600.

(** ** Readiness: the unlock button, [startExperience], [playBackgroundSound] *)

Module Readiness.

(** [style.display] of an element. *)
Inductive Display : Type := unset | none | block.

(** The overlay, the progress text and the unlock button, and the messages
    passed to [alert]. *)
Record Dom : Type := mkDom {
  overlayHidden : bool;
  progressText : string;
  progressDisplay : Display;
  buttonDisplay : Display;
  buttonText : string;
  buttonHidden : bool;
  alerts : list string
}.

(** What the handlers set going: animation loops begun by [animate],
    [clock.start()] calls, and [backgroundSound.play()] calls that
    returned. *)
Record Effects : Type := mkEffects {
  animationLoops : nat;
  clockStarts : nat;
  soundPlays : nat
}.

(** [listener] tells whether the audio listener has been created;
    [backgroundSound] is [Some isPlaying] once the [THREE.Audio] exists;
    [pendingResumes] counts [resume()] promises not yet settled. *)
Record State : Type := mkState {
  isCameraLoaded : bool;
  sceneReady : bool;
  listener : bool;
  backgroundSound : option bool;
  audioContextResumed : bool;
  pendingResumes : nat;
  dom : Dom;
  effects : Effects
}.

Definition setSceneReady (st : State) (b : bool) : State :=
  mkState (isCameraLoaded st) b (listener st) (backgroundSound st)
    (audioContextResumed st) (pendingResumes st) (dom st) (effects st).

Definition setBackgroundSound (st : State) (a : option bool) : State :=
  mkState (isCameraLoaded st) (sceneReady st) (listener st) a
    (audioContextResumed st) (pendingResumes st) (dom st) (effects st).

Definition setAudioContextResumed (st : State) (b : bool) : State :=
  mkState (isCameraLoaded st) (sceneReady st) (listener st)
    (backgroundSound st) b (pendingResumes st) (dom st) (effects st).

Definition setPendingResumes (st : State) (n : nat) : State :=
  mkState (isCameraLoaded st) (sceneReady st) (listener st)
    (backgroundSound st) (audioContextResumed st) n (dom st) (effects st).

Definition setDom (st : State) (d : Dom) : State :=
  mkState (isCameraLoaded st) (sceneReady st) (listener st)
    (backgroundSound st) (audioContextResumed st) (pendingResumes st) d
    (effects st).

Definition setEffects (st : State) (e : Effects) : State :=
  mkState (isCameraLoaded st) (sceneReady st) (listener st)
    (backgroundSound st) (audioContextResumed st) (pendingResumes st)
    (dom st) e.

Definition setOverlayHidden (d : Dom) (b : bool) : Dom :=
  mkDom b (progressText d) (progressDisplay d) (buttonDisplay d)
    (buttonText d) (buttonHidden d) (alerts d).

Definition setButtonText (d : Dom) (t : string) : Dom :=
  mkDom (overlayHidden d) (progressText d) (progressDisplay d)
    (buttonDisplay d) t (buttonHidden d) (alerts d).

Definition setButtonHidden (d : Dom) (b : bool) : Dom :=
  mkDom (overlayHidden d) (progressText d) (progressDisplay d)
    (buttonDisplay d) (buttonText d) b (alerts d).

(** [listener.context.state]. *)
Inductive ContextState : Type := suspended | running | closed.

(** The first lines of [animate], seen from here: past its guard it asks for
    the next frame, which starts a loop. *)
Definition animate (s : Script) (st : State) : State :=
  let stopped :=
    match s with
    | main_js => negb (sceneReady st) || negb (isCameraLoaded st)
    | part_000 => negb (sceneReady st)
    end in
  if stopped then st
  else
    let e := effects st in
    setEffects st (mkEffects (S (animationLoops e)) (clockStarts e) (soundPlays e)).

Definition clockStart (st : State) : State :=
  let e := effects st in
  setEffects st (mkEffects (animationLoops e) (S (clockStarts e)) (soundPlays e)).

Definition startExperience (s : Script) (st : State) : State :=
  if negb (sceneReady st) then
    let st1 := setDom st (setOverlayHidden (dom st) true) in
    let st2 := setSceneReady st1 true in
    if isCameraLoaded st2 then animate s (clockStart st2)
    else
      match s with
      | main_js =>
          setDom st2
            (mkDom false "Error: Camera Failed" block none
               (buttonText (dom st2)) (buttonHidden (dom st2))
               (alerts (dom st2)))
      | part_000 =>
          let d := dom st2 in
          setDom st2
            (mkDom (overlayHidden d) (progressText d) (progressDisplay d)
               (buttonDisplay d) (buttonText d) (buttonHidden d)
               (alerts d ++ ["Error: Could not initialize camera."%string]))
      end
  else st.

(** [playThrows] tells whether [backgroundSound.play()] throws; the
    exception is caught and logged.  A call that returns leaves the sound
    playing. *)
Definition playBackgroundSound (playThrows : bool) (st : State) : State :=
  match backgroundSound st with
  | Some isPlaying =>
      if audioContextResumed st && negb isPlaying then
        if playThrows then st
        else
          let e := effects st in
          setEffects (setBackgroundSound st (Some true))
            (mkEffects (animationLoops e) (clockStarts e) (S (soundPlays e)))
      else st
  | None => st
  end.

(** The click listener of the unlock button, up to the point where it
    returns; a [resume()] it started is settled by a later event. *)
Definition onClick (s : Script) (ctx : ContextState) (playThrows : bool)
    (st : State) : State :=
  if negb (listener st) then
    setDom st (setButtonText (dom st) "Error: Audio not ready")
  else
    let st1 :=
      match ctx with
      | suspended => setPendingResumes st (S (pendingResumes st))
      | running =>
          startExperience s
            (playBackgroundSound playThrows (setAudioContextResumed st true))
      | closed => startExperience s st
      end in
    setDom st1 (setButtonHidden (dom st1) true).

(** The [then] callback of [resume()]. *)
Definition onResumeFulfilled (s : Script) (playThrows : bool) (st : State)
    : State :=
  match pendingResumes st with
  | O => st
  | S n =>
      startExperience s
        (playBackgroundSound playThrows
           (setAudioContextResumed (setPendingResumes st n) true))
  end.

(** The [catch] callback of [resume()]: only [main.js] goes on to start the
    experience. *)
Definition onResumeRejected (s : Script) (st : State) : State :=
  match pendingResumes st with
  | O => st
  | S n =>
      let st1 := setPendingResumes st n in
      let st2 := setDom st1 (setButtonText (dom st1) "Audio Error") in
      match s with
      | main_js => startExperience s st2
      | part_000 => st2
      end
  end.

(** What can happen to the unlock button and the promises it starts. *)
Inductive Gesture : Type :=
| click (ctx : ContextState) (playThrows : bool)
| resumeFulfilled (playThrows : bool)
| resumeRejected.

Definition handle (s : Script) (st : State) (g : Gesture) : State :=
  match g with
  | click ctx playThrows => onClick s ctx playThrows st
  | resumeFulfilled playThrows => onResumeFulfilled s playThrows st
  | resumeRejected => onResumeRejected s st
  end.

Definition run (s : Script) (st : State) (gs : list Gesture) : State :=
  fold_left (handle s) gs st.

Definition isClick (g : Gesture) : bool :=
  match g with click _ _ => true | _ => false end.

Definition isRejection (g : Gesture) : bool :=
  match g with resumeRejected => true | _ => false end.


Definition loopsOf (st : State) : nat := animationLoops (effects st).
Definition playsOf (st : State) : nat := soundPlays (effects st).

(** What the failing branch of [startExperience] reports. *)
Definition cameraFailureReported (s : Script) (before after : State) : Prop :=
  match s with
  | main_js =>
      progressText (dom after) = "Error: Camera Failed"%string /\
      progressDisplay (dom after) = block /\
      overlayHidden (dom after) = false /\
      buttonDisplay (dom after) = none
  | part_000 =>
      alerts (dom after)
      = alerts (dom before) ++ ["Error: Could not initialize camera."%string]
  end.

(** Nothing has been started more than once, and a sound that was started
    is marked as playing. *)
Definition atMostOnce (st : State) : Prop :=
  (sceneReady st = false -> loopsOf st = 0%nat) /\
  (loopsOf st <= 1)%nat /\ (playsOf st <= 1)%nat /\
  (playsOf st = 1%nat -> backgroundSound st = Some true).

(** With a listener and a camera: the experience has started exactly once,
    or it has not started and any click made so far ([clicked]) still waits
    for its [resume()] to settle. *)
Definition unlocking (clicked : bool) (st : State) : Prop :=
  listener st = true /\ isCameraLoaded st = true /\
  (sceneReady st = true -> loopsOf st = 1%nat) /\
  (sceneReady st = false -> clicked = true -> (0 < pendingResumes st)%nat).

(** The page before the model file has been loaded, or after loading it
    failed: no camera, no listener. *)
Definition notLoaded : State :=
  mkState false false false None false 0
    (mkDom false "Loading... 0%" unset block "E N T E R" false [])
    (mkEffects 0 0 0).

End Readiness.

(** ** The canvas-sampled video texture of [main.js] *)

Module CanvasVideoTexture.

(** The part of the hidden video element the helper reads and writes. *)
Record VideoElement : Type := mkElement {
  src : option string;
  elementPaused : bool;
  readyState : nat;
  videoWidth : nat;
  videoHeight : nat
}.

Definition HAVE_CURRENT_DATA : nat := 2.

(** The object [createCanvasVideoTexture] returns, with the variable
    [animationFrameId] it closes over and the frame request the host still
    holds for [updateCanvasTexture]. *)
Record t : Type := mk {
  video : VideoElement;
  canvasWidth : nat;
  canvasHeight : nat;
  needsUpdate : bool;
  textureDisposed : bool;
  animationFrameId : option positive;
  requested : option positive
}.

(** [updateCanvasTexture]; [next] is what [requestAnimationFrame] returns. *)
Definition updateCanvasTexture (a : t) (next : positive) : t :=
  let v := video a in
  let '(w, h, upd) :=
    if (HAVE_CURRENT_DATA <=? readyState v)%nat then
      let '(w, h) :=
        if negb (canvasWidth a =? videoWidth v)%nat
           || negb (canvasHeight a =? videoHeight v)%nat
        then
          if (0 <? videoWidth v)%nat && (0 <? videoHeight v)%nat
          then (videoWidth v, videoHeight v)
          else (canvasWidth a, canvasHeight a)
        else (canvasWidth a, canvasHeight a) in
      (w, h, true)
    else (canvasWidth a, canvasHeight a, needsUpdate a) in
  mk v w h upd (textureDisposed a) (Some next) (Some next).

(** The host runs the requested frame, if one is still requested. *)
Definition hostFrame (a : t) (next : positive) : t :=
  match requested a with
  | Some _ =>
      updateCanvasTexture
        (mk (video a) (canvasWidth a) (canvasHeight a) (needsUpdate a)
           (textureDisposed a) (animationFrameId a) None) next
  | None => a
  end.

Definition cancelAnimationFrame (id : positive) (r : option positive)
    : option positive :=
  match r with
  | Some id' => if Pos.eqb id id' then None else r
  | None => None
  end.

(** [video.pause()], [video.removeAttribute('src')], [video.load()]: with
    no source left, loading resets the element. *)
Definition release (v : VideoElement) : VideoElement :=
  let v1 := mkElement (src v) true (readyState v) (videoWidth v) (videoHeight v) in
  let v2 := mkElement None (elementPaused v1) (readyState v1) (videoWidth v1)
              (videoHeight v1) in
  mkElement (src v2) true 0 0 0.

Definition dispose (a : t) : t :=
  let '(id, r) :=
    match animationFrameId a with
    | Some id => (None, cancelAnimationFrame id (requested a))
    | None => (animationFrameId a, requested a)
    end in
  mk (release (video a)) (canvasWidth a) (canvasHeight a) (needsUpdate a)
    true id r.

(** The host holds no request other than the one [animationFrameId] names. *)
Definition linked (a : t) : Prop :=
  requested a = None \/ requested a = animationFrameId a.

End CanvasVideoTexture.

(** ** The scroll velocity in double precision *)

Module Binary64.

#[warnings="-inexact-float"]
Definition scrollSensitivity : PrimFloat.float := 0.01%float.

Definition scrollDamping : PrimFloat.float := 0.75%float.

(** [scrollVelocityX += event.deltaY * scrollSensitivity]. *)
Definition onWheel (v deltaY : PrimFloat.float) : PrimFloat.float :=
  PrimFloat.add v (PrimFloat.mul deltaY scrollSensitivity).

(** [scrollVelocityX *= scrollDamping]. *)
Definition damp (v : PrimFloat.float) : PrimFloat.float :=
  PrimFloat.mul v scrollDamping.

End Binary64.

(** ** The pointer *)

Module Pointer.

(** [currentMouseX], [currentMouseY] and the vector [mouse]. *)
Record t : Type := mk {
  currentMouseX : Q;
  currentMouseY : Q;
  mouseX : Q;
  mouseY : Q
}.

(** [mouse] starts at (-2, -2), off the screen. *)
Definition initial : t := mk 0 0 (-2) (-2).

(** [onMouseMove], the same in both scripts. *)
Definition onMouseMove (clientX clientY innerWidth innerHeight : Q) : t :=
  mk clientX clientY
    ((clientX / innerWidth) * 2 - 1)
    ((- (clientY / innerHeight)) * 2 + 1).

End Pointer.

(** ** Keys over a run *)

Definition keyFlag (k : KeyStates) (c : KeyCode) : bool :=
  match c with
  | KeyW => keyW k
  | KeyA => keyA k
  | KeyS => keyS k
  | KeyD => keyD k
  | KeyOther => false
  end.

(** Whether an event is the [keydown] or the [keyup] of the key [c]. *)
Definition keyEventOf (c : KeyCode) (ev : Event) : option bool :=
  match ev, c with
  | keydown KeyW, KeyW | keydown KeyA, KeyA
  | keydown KeyS, KeyS | keydown KeyD, KeyD => Some true
  | keyup KeyW, KeyW | keyup KeyA, KeyA
  | keyup KeyS, KeyS | keyup KeyD, KeyD => Some false
  | _, _ => None
  end.

(** What the last event of the key [c] in [evs] was, if there was one. *)
Definition lastKeyEvent (c : KeyCode) (evs : list Event) : option bool :=
  fold_left (fun acc ev =>
               match keyEventOf c ev with Some b => Some b | None => acc end)
    evs None.

Module Cleanup.

(** The first statement of the [beforeunload] listener of [main.js],
    [sceneReady = false], which stops the animation loop. *)
Definition onBeforeUnload (w : World) : World :=
  mkWorld (isCameraLoaded w) false (input w) (position w).

End Cleanup.

(** ** Setting up the video planes *)

(** What both scripts do with a video element once it exists: store it
    under the name of its mesh and add the mesh to [videoMeshes].  The
    element was created muted and is paused at that point. *)
Definition registerVideo (name : string) (h : HoverState) : HoverState :=
  mkHover (<[name := mkVideo true true]> (videoElements h))
    (videoMeshes h ++ [name]) (currentlyHoveredVideo h) (infoPanel h).

(** The hover state when the scripts start. *)
Definition emptyHover : HoverState :=
  mkHover ∅ [] None (mkPanel "Placeholder Text" 0 0 false).

(** What changes the hover state: a video element being registered (at
    once for a direct video texture, on [loadedmetadata] for a canvas one)
    and the hover part of a frame. *)
Inductive HoverEvent : Type :=
| videoRegistered (name : string)
| hoverFrame (env : HoverEnv).

Definition hoverStep (s : Script) (h : HoverState) (ev : HoverEvent)
    : HoverState :=
  match ev with
  | videoRegistered name => registerVideo name h
  | hoverFrame env => fst (animateHover s h env)
  end.

Definition hoverEvents (s : Script) (h : HoverState) (evs : list HoverEvent)
    : HoverState :=
  fold_left (hoverStep s) evs h.

Definition allMuted (h : HoverState) : Prop :=
  forall name v, videoElements h !! name = Some v -> muted v = true.

Module Setup.

Definition videoPlanes : list string :=
  ["lanternBugfly_webm"; "lunaMoth_webm"; "tigerButterfly_webm"]%string.

(** An entry of [videoFileMap]. *)
Record VideoInfo : Type := mkInfo {
  safari : option string;
  default : option string
}.

Definition videoFileMap : gmap string VideoInfo :=
  {[ "lanternBugfly_webm" :=
       mkInfo (Some "assets/lanternBugfly_H.265.mov")
         (Some "assets/lanternBugfly_webm.webm");
     "lunaMoth_webm" :=
       mkInfo (Some "assets/Luna_Moth_H.265.mov") (Some "assets/Luna_Moth.webm");
     "tigerButterfly_webm" :=
       mkInfo (Some "assets/tigerButterfly_H.265.mov")
         (Some "assets/tigerButterfly_webm.webm") ]}%string.

(** A node of the loaded scene, as [traverse] looks at it. *)
Record Child : Type := mkChild { isMesh : bool; name : string }.

(** The hover state and what else the traversal builds: the source of each
    video element created, the canvas-texture videos still waiting for
    their metadata, and [videoMeshesFoundCount]. *)
Record State : Type := mkState {
  hover : HoverState;
  videoSources : gmap string string;
  awaitingMetadata : list string;
  videoMeshesFoundCount : nat
}.

Definition start : State := mkState emptyHover ∅ [] 0.

Definition wanted (child : Child) : bool :=
  isMesh child && bool_decide (name child ∈ videoPlanes).

(** The callback [traverse] runs on every node. *)
Definition visit (s : Script) (isSafari : bool) (st : State) (child : Child)
    : State :=
  if wanted child then
    let meshName := name child in
    let found := S (videoMeshesFoundCount st) in
    match s with
    | part_000 =>
        let videoPath := ("assets/" +:+ meshName +:+ ".webm")%string in
        mkState (registerVideo meshName (hover st))
          (<[meshName := videoPath]> (videoSources st))
          (awaitingMetadata st) found
    | main_js =>
        match videoFileMap !! meshName with
        | None =>
            mkState (hover st) (videoSources st) (awaitingMetadata st) found
        | Some videoInfo =>
            match (if isSafari then safari videoInfo else None) with
            | Some videoPath =>
                mkState (hover st)
                  (<[meshName := videoPath]> (videoSources st))
                  (awaitingMetadata st ++ [meshName]) found
            | None =>
                match default videoInfo with
                | Some videoPath =>
                    mkState (registerVideo meshName (hover st))
                      (<[meshName := videoPath]> (videoSources st))
                      (awaitingMetadata st) found
                | None =>
                    mkState (hover st) (videoSources st)
                      (awaitingMetadata st) found
                end
            end
        end
    end
  else st.

Definition traverse (s : Script) (isSafari : bool) (children : list Child)
    : State :=
  fold_left (visit s isSafari) children start.

(** The warning after the traversal is logged when the count differs from
    the number of video planes. *)
Definition countWarning (st : State) : bool :=
  negb (videoMeshesFoundCount st =? length videoPlanes)%nat.

(** The names of the nodes the traversal acts on, in order. *)
Definition wantedNames (children : list Child) : list string :=
  map name (List.filter wanted children).

End Setup.

(** ** Loading the model file *)

Module Loader.

(** A camera of the loaded file. *)
Record GltfCamera : Type := mkCamera { name : string; position : Vector3.t }.

(** [gltf.cameras.find(cam => cam.name === 'MyExportCamera') ||
    gltf.cameras[0]]. *)
Definition findCamera (cameras : list GltfCamera) : option GltfCamera :=
  match List.find (fun cam => String.eqb (name cam) "MyExportCamera") cameras with
  | Some cam => Some cam
  | None => head cameras
  end.

(** What the camera part of the load callback leaves: the position of
    [importedCamera] if there is one, [isCameraLoaded], and whether the
    audio listener and the background sound object were created. *)
Record Outcome : Type := mkOutcome {
  importedCamera : option Vector3.t;
  isCameraLoaded : bool;
  listener : bool;
  backgroundSound : bool
}.

Definition onLoad (s : Script) (cameras : list GltfCamera) : Outcome :=
  let nothing := mkOutcome None false false false in
  let o1 :=
    if (0 <? length cameras)%nat then
      match findCamera cameras with
      | Some cam =>
          mkOutcome (Some (clampInitial (bounds_of s) (position cam)))
            true true false
      | None => nothing
      end
    else nothing in
  let o2 :=
    match s with
    | main_js =>
        if negb (isCameraLoaded o1)
        then mkOutcome (Some MainJs.fallbackCameraPosition) true true false
        else o1
    | part_000 => o1
    end in
  mkOutcome (importedCamera o2) (isCameraLoaded o2) (listener o2) (listener o2).

(** The page the click listener finds after that callback. *)
Definition install (o : Outcome) (st : Readiness.State) : Readiness.State :=
  Readiness.mkState (isCameraLoaded o) (Readiness.sceneReady st) (listener o)
    (if backgroundSound o then Some false else None)
    (Readiness.audioContextResumed st) (Readiness.pendingResumes st)
    (Readiness.dom st) (Readiness.effects st).

End Loader.

(** ** The loading manager *)

Module LoadingManager.

(** [Math.round]: the nearest integer, halves going up. *)
Definition round (q : Q) : Z := Qfloor (q + (1 # 2)).

(** [Math.round((itemsLoaded / itemsTotal * 100))]. *)
Definition progress (itemsLoaded itemsTotal : nat) : Z :=
  round (inject_Z (Z.of_nat itemsLoaded) / inject_Z (Z.of_nat itemsTotal) * 100).

Definition progressLabel (itemsLoaded itemsTotal : nat) : string :=
  ("Loading... " +:+ pretty (progress itemsLoaded itemsTotal) +:+ "%")%string.

Definition setProgress (d : Readiness.Dom) (text : string)
    (button : Readiness.Display) : Readiness.Dom :=
  Readiness.mkDom (Readiness.overlayHidden d) text (Readiness.progressDisplay d)
    button (Readiness.buttonText d) (Readiness.buttonHidden d)
    (Readiness.alerts d).

Definition onStart (d : Readiness.Dom) : Readiness.Dom :=
  setProgress d "Loading... 0%" Readiness.none.

Definition onProgress (itemsLoaded itemsTotal : nat) (d : Readiness.Dom)
    : Readiness.Dom :=
  setProgress d (progressLabel itemsLoaded itemsTotal) (Readiness.buttonDisplay d).

Definition onError (url : string) (d : Readiness.Dom) : Readiness.Dom :=
  setProgress d ("Error loading: " +:+ url)%string Readiness.none.

(** [onLoad] and, half a second later, the function it hands to
    [setTimeout]. *)
Definition onLoad (d : Readiness.Dom) : Readiness.Dom :=
  setProgress d "Loading complete!" (Readiness.buttonDisplay d).

Definition onLoadTimeout (d : Readiness.Dom) : Readiness.Dom :=
  Readiness.mkDom (Readiness.overlayHidden d) (Readiness.progressText d)
    Readiness.none Readiness.block (Readiness.buttonText d)
    (Readiness.buttonHidden d) (Readiness.alerts d).

Inductive Callback : Type :=
| started
| progressed (itemsLoaded itemsTotal : nat)
| failed (url : string)
| loadedAll
| timeoutFired.

Definition call (d : Readiness.Dom) (c : Callback) : Readiness.Dom :=
  match c with
  | started => onStart d
  | progressed l t => onProgress l t d
  | failed url => onError url d
  | loadedAll => onLoad d
  | timeoutFired => onLoadTimeout d
  end.

End LoadingManager.

(** ** The life of a canvas-sampled texture *)

Module CanvasLifecycle.

(** The object right after [createCanvasVideoTexture] returned: a paused
    video with its source set, a 512 by 512 canvas, no frame requested. *)
Definition created (videoPath : string) : CanvasVideoTexture.t :=
  CanvasVideoTexture.mk
    (CanvasVideoTexture.mkElement (Some videoPath) true 0 0 0)
    512 512 false false None None.

(** The browser learns more about the video: its [readyState] and
    dimensions change. *)
Definition mediaChanged (a : CanvasVideoTexture.t) (state width height : nat)
    : CanvasVideoTexture.t :=
  let v := CanvasVideoTexture.video a in
  CanvasVideoTexture.mk
    (CanvasVideoTexture.mkElement (CanvasVideoTexture.src v)
       (CanvasVideoTexture.elementPaused v) state width height)
    (CanvasVideoTexture.canvasWidth a) (CanvasVideoTexture.canvasHeight a)
    (CanvasVideoTexture.needsUpdate a) (CanvasVideoTexture.textureDisposed a)
    (CanvasVideoTexture.animationFrameId a) (CanvasVideoTexture.requested a).

(** The [loadedmetadata] listener, up to its call of [onTextureReady]:
    size the canvas if the dimensions are valid, ask the video to play
    ([starts]: whether it does), and make the first call of
    [updateCanvasTexture]. *)
Definition onLoadedMetadata (a : CanvasVideoTexture.t) (starts : bool)
    (next : positive) : CanvasVideoTexture.t :=
  let v := CanvasVideoTexture.video a in
  let '(w, h) :=
    if (0 <? CanvasVideoTexture.videoWidth v)%nat
       && (0 <? CanvasVideoTexture.videoHeight v)%nat
    then (CanvasVideoTexture.videoWidth v, CanvasVideoTexture.videoHeight v)
    else (CanvasVideoTexture.canvasWidth a, CanvasVideoTexture.canvasHeight a) in
  let v1 :=
    if starts
    then CanvasVideoTexture.mkElement (CanvasVideoTexture.src v) false
           (CanvasVideoTexture.readyState v) (CanvasVideoTexture.videoWidth v)
           (CanvasVideoTexture.videoHeight v)
    else v in
  CanvasVideoTexture.updateCanvasTexture
    (CanvasVideoTexture.mk v1 w h (CanvasVideoTexture.needsUpdate a)
       (CanvasVideoTexture.textureDisposed a)
       (CanvasVideoTexture.animationFrameId a) (CanvasVideoTexture.requested a))
    next.

(** The [error] listener: it cancels the requested frame and keeps the
    identifier. *)
Definition onVideoError (a : CanvasVideoTexture.t) : CanvasVideoTexture.t :=
  CanvasVideoTexture.mk (CanvasVideoTexture.video a)
    (CanvasVideoTexture.canvasWidth a) (CanvasVideoTexture.canvasHeight a)
    (CanvasVideoTexture.needsUpdate a) (CanvasVideoTexture.textureDisposed a)
    (CanvasVideoTexture.animationFrameId a)
    (match CanvasVideoTexture.animationFrameId a with
     | Some id =>
         CanvasVideoTexture.cancelAnimationFrame id (CanvasVideoTexture.requested a)
     | None => CanvasVideoTexture.requested a
     end).

(** What happens to the object between [loadedmetadata] and [dispose()]. *)
Inductive Event : Type :=
| frameDue (next : positive)
| videoError
| media (state width height : nat).

Definition step (a : CanvasVideoTexture.t) (ev : Event) : CanvasVideoTexture.t :=
  match ev with
  | frameDue next => CanvasVideoTexture.hostFrame a next
  | videoError => onVideoError a
  | media state width height => mediaChanged a state width height
  end.

Definition run (a : CanvasVideoTexture.t) (evs : list Event)
    : CanvasVideoTexture.t :=
  fold_left step evs a.

End CanvasLifecycle.

(** The names registered in a run of hover events, in order. *)
Definition registeredNames (evs : list HoverEvent) : list string :=
  omap (fun ev => match ev with
                  | videoRegistered name => Some name
                  | hoverFrame _ => None
                  end) evs.

(** What every event keeps true of a canvas-sampled texture: the host holds
    no frame request but the one [animationFrameId] names, and the canvas
    has a positive size. *)
Definition canvasSound (a : CanvasVideoTexture.t) : Prop :=
  CanvasVideoTexture.linked a /\
  (0 < CanvasVideoTexture.canvasWidth a)%nat /\
  (0 < CanvasVideoTexture.canvasHeight a)%nat.

(** ** The page: which events reach which listener *)

Module Page.

(** A finger on the screen: its [clientY], and whether the canvas is the
    target of its events.  A touch keeps the target it began on until it
    ends. *)
Record Finger : Type := mkFinger { clientY : Q; onCanvas : bool }.

(** The readiness state with the overlay, the input state and the camera
    position, and the fingers on the screen in the order of
    [event.touches]. *)
Record t : Type := mk {
  ready : Readiness.State;
  inputState : InputState;
  cameraPosition : Vector3.t;
  fingers : list Finger
}.

(** The variables as the input listeners and [animate] see them. *)
Definition world (p : t) : World :=
  mkWorld (Readiness.isCameraLoaded (ready p)) (Readiness.sceneReady (ready p))
    (inputState p) (cameraPosition p).

(** A listener or a frame runs: it reads and writes the input state and the
    camera position. *)
Definition deliver (s : Script) (p : t) (ev : Event) : t :=
  let w := step_of s (world p) ev in
  mk (ready p) (input w) (position w) (fingers p).

(** [event.touches]: every finger on the screen, whatever its target. *)
Definition touchYs (p : t) : list Q := map clientY (fingers p).

Definition setFingers (p : t) (fs : list Finger) : t :=
  mk (ready p) (inputState p) (cameraPosition p) fs.

(** Where a finger that comes down lands.  The style sheet of [index.html]
    puts [#loading-overlay] over the whole page ([position: absolute],
    [width] and [height] 100%, [z-index: 100]), above the canvas; it takes
    the touch unless it has the class [hidden], which gives it
    [pointer-events: none].  Under a hidden overlay the finger is over the
    canvas ([overCanvas]) or over something else. *)
Definition landsOnCanvas (p : t) (overCanvas : bool) : bool :=
  Readiness.overlayHidden (Readiness.dom (ready p)) && overCanvas.

(** What happens to the page.  The key and wheel listeners are on
    [document] and [window] and hear every such event; the touch listeners
    are on the canvas and hear the events of the fingers whose target it
    is; [animate] runs only as part of a loop that was started. *)
Inductive Event : Type :=
| gesture (g : Readiness.Gesture)
| keyPressed (c : KeyCode)
| keyReleased (c : KeyCode)
| wheelTurned (deltaY : Q)
| animationFrame (e : FrameEnv)
| fingerDown (y : Q) (overCanvas : bool)
| fingerMoved (i : nat) (y : Q)
| fingerLifted (i : nat).

Definition step (s : Script) (p : t) (ev : Event) : t :=
  match ev with
  | gesture g =>
      mk (Readiness.handle s (ready p) g) (inputState p) (cameraPosition p)
        (fingers p)
  | keyPressed c => deliver s p (keydown c)
  | keyReleased c => deliver s p (keyup c)
  | wheelTurned deltaY => deliver s p (wheel deltaY)
  | animationFrame e =>
      if (0 <? Readiness.loopsOf (ready p))%nat then deliver s p (frame e)
      else p
  | fingerDown y overCanvas =>
      let f := mkFinger y (landsOnCanvas p overCanvas) in
      let p1 := setFingers p (fingers p ++ [f]) in
      if onCanvas f then deliver s p1 (touchstart (touchYs p1)) else p1
  | fingerMoved i y =>
      match fingers p !! i with
      | Some f =>
          let p1 := setFingers p (<[i := mkFinger y (onCanvas f)]> (fingers p)) in
          if onCanvas f then deliver s p1 (touchmove (touchYs p1)) else p1
      | None => p
      end
  | fingerLifted i =>
      match fingers p !! i with
      | Some f =>
          let p1 := setFingers p (delete i (fingers p)) in
          if onCanvas f then deliver s p1 (touchend (touchYs p1)) else p1
      | None => p
      end
  end.

Definition run (s : Script) (p : t) (evs : list Event) : t :=
  fold_left (step s) evs p.




End Page.

(** ** Statements about gestures and loading callbacks *)

(** Gestures that leave the audio context as it is: a click that finds it
    suspended or closed, and a rejected [resume()]. *)
Definition keepsSilent (g : Readiness.Gesture) : bool :=
  match g with
  | Readiness.click Readiness.running _ | Readiness.resumeFulfilled _ => false
  | Readiness.click _ _ | Readiness.resumeRejected => true
  end.

(** What a loading-manager callback does to the display of the unlock
    button, if anything. *)
Definition buttonSetBy (c : LoadingManager.Callback)
    : option Readiness.Display :=
  match c with
  | LoadingManager.started | LoadingManager.failed _ => Some Readiness.none
  | LoadingManager.timeoutFired => Some Readiness.block
  | LoadingManager.progressed _ _ | LoadingManager.loadedAll => None
  end.

Definition lastButtonSetting (cs : list LoadingManager.Callback)
    : option Readiness.Display :=
  fold_left (fun acc c =>
               match buttonSetBy c with Some d => Some d | None => acc end)
    cs None.

(** * Properties

    Lemmas are grouped by the property they serve. *)

Module JsFacts.

Lemma gt_true a b : Js.gt a b = true <-> b < a.
Proof.
  unfold Js.gt. rewrite negb_true_iff, <- not_true_iff_false, Qle_bool_iff.
  split; [apply Qnot_le_lt | apply Qlt_not_le].
Qed.


Lemma lt_true a b : Js.lt a b = true <-> a < b.
Proof. apply gt_true. Qed.


Lemma ge_true a b : Js.ge a b = true <-> b <= a.
Proof. apply Qle_bool_iff. Qed.

Lemma le_true a b : Js.le a b = true <-> a <= b.
Proof. apply Qle_bool_iff. Qed.

End JsFacts.

(** ** Numbers *)

Lemma clamp_bounds lo hi v : lo <= hi -> lo <= clamp lo hi v <= hi.
Proof.
  intros Hlh. unfold clamp, Math.max, Math.min. split.
  - apply Q.le_max_l.
  - apply Q.max_lub; [exact Hlh | apply Q.le_min_l].
Qed.

Lemma clamp_id lo hi v : lo <= v <= hi -> clamp lo hi v == v.
Proof.
  intros [H1 H2]. unfold clamp, Math.max, Math.min.
  rewrite (Q.min_r hi v H2). apply Q.max_r, H1.
Qed.

(** ** The camera stays inside its rectangle *)

Lemma clampInitial_in_bounds b p :
  well_formed b -> in_bounds b (clampInitial b p).
Proof.
  intros [Hx Hz]. unfold in_bounds, clampInitial; simpl.
  split; apply clamp_bounds; assumption.
Qed.

Lemma mainjs_bounds_wf : well_formed MainJs.bounds.
Proof. split; vm_compute; discriminate. Qed.

Lemma part000_bounds_wf : well_formed Part000.bounds.
Proof. split; vm_compute; discriminate. Qed.

Lemma withinBounds_in_bounds p :
  Part000.withinBounds p = true -> in_bounds Part000.bounds p.
Proof.
  unfold Part000.withinBounds.
  rewrite !andb_true_iff, !JsFacts.ge_true, !JsFacts.le_true.
  intros [[[H1 H2] H3] H4]. repeat split; assumption.
Qed.

Lemma mainjs_cameraMovement_in_bounds e i pos :
  in_bounds MainJs.bounds pos ->
  in_bounds MainJs.bounds (snd (MainJs.cameraMovement e i pos)).
Proof.
  intros Hin. unfold MainJs.cameraMovement.
  assert (Hpos1 : in_bounds MainJs.bounds (MainJs.wasdMovement e i pos)).
  { unfold MainJs.wasdMovement.
    destruct (movedWASD (keyStates i)); [|exact Hin].
    apply (clampInitial_in_bounds MainJs.bounds), mainjs_bounds_wf. }
  revert Hpos1. generalize (MainJs.wasdMovement e i pos) as pos1.
  intros pos1 Hpos1. unfold MainJs.scrollMovement.
  destruct (Js.gt (Math.abs (scrollVelocityX i)) MainJs.scrollEpsilon);
    [|exact Hpos1].
  destruct (MainJs.strictlyInside _) eqn:Hc.
  - unfold MainJs.strictlyInside in Hc.
    rewrite !andb_true_iff, !JsFacts.gt_true, !JsFacts.lt_true in Hc.
    destruct Hc as [[[H1 H2] H3] H4]. simpl.
    repeat split; apply Qlt_le_weak; assumption.
  - simpl. split; apply clamp_bounds; apply mainjs_bounds_wf.
Qed.

Lemma part000_cameraMovement_in_bounds e i pos :
  in_bounds Part000.bounds pos ->
  in_bounds Part000.bounds (snd (Part000.cameraMovement e i pos)).
Proof.
  intros Hin. unfold Part000.cameraMovement.
  assert (Hpos1 : in_bounds Part000.bounds (Part000.wasdMovement e i pos)).
  { unfold Part000.wasdMovement.
    destruct (movedWASD (keyStates i)); [|exact Hin].
    destruct (Part000.withinBounds _) eqn:Hw.
    - apply withinBounds_in_bounds, Hw.
    - apply clampInitial_in_bounds, part000_bounds_wf. }
  revert Hpos1. generalize (Part000.wasdMovement e i pos) as pos1.
  intros pos1 Hpos1. unfold Part000.scrollMovement.
  destruct (Js.gt (Math.abs (scrollVelocityX i)) Part000.scrollEpsilon);
    [|exact Hpos1].
  destruct (Part000.withinBounds _) eqn:Hw; simpl.
  - apply withinBounds_in_bounds in Hw. exact Hw.
  - apply clampInitial_in_bounds, part000_bounds_wf.
Qed.

Lemma step_in_bounds s w ev :
  in_bounds (bounds_of s) (position w) ->
  in_bounds (bounds_of s) (position (step_of s w ev)).
Proof.
  intros Hin. destruct s, ev; simpl;
    unfold onKeyDown, onKeyUp, MainJs.onWheel, MainJs.onTouchStart,
      MainJs.onTouchMove, MainJs.onTouchEnd, MainJs.animateCamera,
      Part000.onWheel, Part000.animateCamera;
    repeat match goal with
           | |- context [if ?c then _ else _] => destruct c
           end; simpl; try exact Hin.
  - pose proof (mainjs_cameraMovement_in_bounds e (input w) (position w) Hin) as H.
    destruct (MainJs.cameraMovement e (input w) (position w)); exact H.
  - pose proof (part000_cameraMovement_in_bounds e (input w) (position w) Hin) as H.
    destruct (Part000.cameraMovement e (input w) (position w)); exact H.
Qed.

Lemma run_in_bounds s evs : forall w,
  in_bounds (bounds_of s) (position w) ->
  in_bounds (bounds_of s) (position (run_of s w evs)).
Proof.
  induction evs as [|ev evs IH]; intros w Hin; simpl; [exact Hin|].
  apply IH, step_in_bounds, Hin.
Qed.

(** C1. In either script, whatever input events and animation frames arrive
    (any key flags, any wheel or touch velocity, any frame time and camera
    axes), the camera position lies inside the clamping rectangle after
    every one of them, provided it did after the clamp made when the scene
    was loaded. *)
Theorem camera_stays_in_bounds (s : Script) (w : World) (evs : list Event)
    (n : nat) :
  in_bounds (bounds_of s) (position w) ->
  in_bounds (bounds_of s) (position (run_of s w (take n evs))).
Proof. intros Hin. apply run_in_bounds, Hin. Qed.

Ltac by_evaluation := vm_compute; repeat split; discriminate.

Lemma camera_stays_in_bounds_witness :
  let w := mkWorld true true
             (mkInput (mkKeys true false false true) 0 0 false)
             (clampInitial MainJs.bounds (Vector3.mk 80 1 5)) in
  let evs := [wheel 5000; frame sampleEnv; keyup KeyW; frame sampleEnv] in
  in_bounds (bounds_of main_js) (position w) /\
  in_bounds (bounds_of main_js) (position (run_of main_js w (take 4 evs))).
Proof.
  intros w evs. split.
  - by_evaluation.
  - apply (camera_stays_in_bounds main_js w evs 4). by_evaluation.
Defined.

(** The fallback camera of [main.js] starts outside the rectangle, and
    stays where it is for as long as no key is down and the scroll velocity
    is 0: only a movement brings the clamp into play. *)
Theorem fallback_camera_starts_outside (es : list FrameEnv) :
  ~ in_bounds MainJs.bounds MainJs.fallbackCameraPosition /\
  run_of main_js
    (mkWorld true true restingInput MainJs.fallbackCameraPosition)
    (map frame es)
  = mkWorld true true restingInput MainJs.fallbackCameraPosition.
Proof.
  split.
  - intros [_ [_ H]]. vm_compute in H. apply H. reflexivity.
  - induction es as [|e es IH]; [reflexivity|].
    change (map frame (e :: es)) with (frame e :: map frame es).
    unfold run_of in *. simpl fold_left at 1. exact IH.
Qed.

(** ** Wheel input followed by one frame *)





(** ** Pointer input that arrives before the experience is ready *)

Lemma notReady_guard w :
  notReady w -> negb (isCameraLoaded w) || negb (sceneReady w) = true.
Proof. intros [H|H]; rewrite H; simpl; auto using orb_true_r. Qed.

(** Wheel and touch-start events are dropped whole, in both scripts. *)
Lemma wheel_before_ready s w dy :
  notReady w -> step_of s w (wheel dy) = w.
Proof.
  intros H. destruct s; simpl; unfold MainJs.onWheel, Part000.onWheel;
    rewrite (notReady_guard w H); reflexivity.
Qed.

Lemma touchstart_before_ready s w ts :
  notReady w -> step_of s w (touchstart ts) = w.
Proof.
  intros H. destruct s; simpl; [|reflexivity].
  unfold MainJs.onTouchStart. rewrite (notReady_guard w H). reflexivity.
Qed.

(** A touch-move event is not: its early return still writes [isTouching]. *)
Lemma touchmove_before_ready w ts :
  notReady w ->
  input (MainJs.onTouchMove w ts) =
  mkInput (keyStates (input w)) (scrollVelocityX (input w))
    (touchStartY (input w)) (length ts =? 1)%nat.
Proof.
  intros H. unfold MainJs.onTouchMove. rewrite (notReady_guard w H).
  reflexivity.
Qed.

(** Before the page is ready, in either script, a wheel event and a
    touch-start event change nothing at all, and a touch-move event changes
    neither the scroll velocity, nor [touchStartY], nor the camera. *)
Theorem pointer_input_before_ready (s : Script) (w : World) (dy : Q)
    (ts : list Q) :
  notReady w ->
  step_of s w (wheel dy) = w /\
  step_of s w (touchstart ts) = w /\
  scrollVelocityX (input (step_of s w (touchmove ts)))
  = scrollVelocityX (input w) /\
  touchStartY (input (step_of s w (touchmove ts))) = touchStartY (input w) /\
  position (step_of s w (touchmove ts)) = position w.
Proof.
  intros H. split; [apply wheel_before_ready, H|].
  split; [apply touchstart_before_ready, H|].
  destruct s; simpl; [|repeat split].
  pose proof (touchmove_before_ready w ts H) as Hm.
  rewrite Hm. simpl. repeat split.
  unfold MainJs.onTouchMove. rewrite (notReady_guard w H). reflexivity.
Qed.

Lemma pointer_input_before_ready_witness :
  let w := mkWorld true false restingInput (Vector3.mk 0 0 0) in
  notReady w /\
  step_of main_js w (wheel 100) = w /\
  step_of main_js w (touchstart [300]) = w.
Proof.
  intros w.
  assert (H : notReady w) by (right; reflexivity).
  destruct (pointer_input_before_ready main_js w 100 [300] H) as (H1 & H2 & _).
  split; [exact H|]. split; [exact H1 | exact H2].
Defined.

(** ** Damping of the scroll velocity *)



Lemma inject_nat_nonneg n : 0 <= inject_Z (Z.of_nat n).
Proof.
  change 0 with (inject_Z 0). rewrite <- Zle_Qle. apply Nat2Z.is_nonneg.
Qed.












(** ** At most one hovered video plays *)

Lemma pausedPrevious_all_paused (h : HoverState) (name : string) (v : Video) :
  exclusive h -> pausedPrevious h !! name = Some v -> paused v = true.
Proof.
  intros Hex Hl. unfold pausedPrevious in Hl.
  destruct (paused v) eqn:Hp; [reflexivity|]. exfalso.
  destruct (currentlyHoveredVideo h) as [prev|] eqn:Hh.
  - apply lookup_alter_Some in Hl as [[-> (x & Hx & ->)] | [Hne Hl]].
    + discriminate Hp.
    + assert (Some prev = Some name) as [= ->]; [|congruence].
      rewrite <- Hh. apply Hex. exists v. split; assumption.
  - assert (currentlyHoveredVideo h = Some name); [|congruence].
    apply Hex. exists v. split; assumption.
Qed.

Lemma all_paused_exclusive (h : HoverState) :
  (forall name v, videoElements h !! name = Some v -> paused v = true) ->
  exclusive h.
Proof.
  intros Hall name (v & Hl & Hp). rewrite (Hall name v Hl) in Hp. discriminate.
Qed.

Lemma controlPlayback_exclusive (h : HoverState) (env : HoverEnv)
    (hit : option (string * Video)) :
  exclusive h -> exclusive (fst (controlPlayback h env hit)).
Proof.
  intros Hex. pose proof (pausedPrevious_all_paused h) as Hall.
  unfold controlPlayback, pausedPrevious in *.
  destruct hit as [[name video]|].
  - case_decide as Hsame; [exact Hex|].
    destruct (currentlyHoveredVideo h) as [prev|];
      destruct (audioContextResumed env || muted video); simpl;
      intros n (v & Hl & Hp); simpl in *;
      try (rewrite (Hall n v Hex Hl) in Hp; discriminate);
      (destruct (decide (name = n)) as [->|Hne]; [reflexivity|]);
      rewrite lookup_alter_ne in Hl by exact Hne;
      rewrite (Hall n v Hex Hl) in Hp; discriminate.
  - destruct (currentlyHoveredVideo h) as [prev|]; [|exact Hex].
    simpl. intros n (v & Hl & Hp); simpl in *.
    rewrite (Hall n v Hex Hl) in Hp. discriminate.
Qed.

Lemma animateHover_videos (s : Script) (h : HoverState) (env : HoverEnv) :
  videoElements (fst (animateHover s h env))
  = videoElements (fst (controlPlayback h env (intersected h env))) /\
  currentlyHoveredVideo (fst (animateHover s h env))
  = currentlyHoveredVideo (fst (controlPlayback h env (intersected h env))) /\
  videoMeshes (fst (animateHover s h env))
  = videoMeshes (fst (controlPlayback h env (intersected h env))) /\
  snd (animateHover s h env)
  = snd (controlPlayback h env (intersected h env)).
Proof.
  unfold animateHover.
  destruct (controlPlayback h env (intersected h env)) as [h1 calls].
  repeat split.
Qed.

Lemma animateHover_exclusive (s : Script) (h : HoverState) (env : HoverEnv) :
  exclusive h -> exclusive (fst (animateHover s h env)).
Proof.
  intros Hex.
  pose proof (controlPlayback_exclusive h env (intersected h env) Hex) as H1.
  destruct (animateHover_videos s h env) as (Hv & Hc & _).
  intros n (v & Hl & Hp). rewrite Hc. apply H1. exists v.
  rewrite <- Hv. split; assumption.
Qed.

Lemma hoverRun_exclusive (s : Script) (envs : list HoverEnv) : forall h,
  exclusive h -> exclusive (hoverRun s h envs).
Proof.
  induction envs as [|env envs IH]; intros h Hex; [exact Hex|].
  simpl. apply IH, animateHover_exclusive, Hex.
Qed.

Lemma exclusive_at_most_one (h : HoverState) (a b : string) :
  exclusive h -> playing h a -> playing h b -> a = b.
Proof.
  intros Hex Ha Hb. apply Hex in Ha, Hb. congruence.
Qed.

(** When a frame resolves something else than the video hovered so far
    (another video, or none), that video is paused by the first call the
    frame makes; the only call that can follow is [play()] on the video now
    resolved. *)
Lemma previous_is_paused_first (s : Script) (h : HoverState) (env : HoverEnv)
    (prev : string) :
  currentlyHoveredVideo h = Some prev ->
  fst <$> intersected h env <> Some prev ->
  currentlyHoveredVideo (fst (animateHover s h env))
  = fst <$> intersected h env /\
  ~ playing (fst (animateHover s h env)) prev /\
  exists rest,
    snd (animateHover s h env) = pauseCall prev :: rest /\
    (rest = [] \/
     exists name,
       fst <$> intersected h env = Some name /\ rest = [playCall name]).
Proof.
  intros Hh. destruct (animateHover_videos s h env) as (Hv & Hc & _ & Hs).
  rewrite Hc, Hs. unfold playing. rewrite Hv. clear Hv Hc Hs.
  unfold controlPlayback. rewrite Hh.
  destruct (intersected h env) as [[name video]|]; simpl.
  - intros Hne. assert (Hnp : name <> prev) by congruence.
    case_decide as Hsame; [congruence|].
    destruct (audioContextResumed env || muted video); simpl;
      (split; [reflexivity|]); split;
      try (eexists; split; [reflexivity|]; first [left; reflexivity |
             right; exists name; split; reflexivity]);
      intros (v & Hl & Hp);
      rewrite ?(lookup_alter_ne _ _ name prev Hnp) in Hl;
      rewrite lookup_alter_eq in Hl;
      destruct (videoElements h !! prev); simpl in Hl; try discriminate;
      injection Hl as <-; discriminate.
  - intros _. split; [reflexivity|]. split.
    + intros (v & Hl & Hp). rewrite lookup_alter_eq in Hl.
      destruct (videoElements h !! prev); simpl in Hl; try discriminate.
      injection Hl as <-. discriminate.
    + eexists. split; [reflexivity | left; reflexivity].
Qed.

(** C4. In either script, starting from a state in which only the hovered
    video may be playing (such as the initial one, where every video is
    paused), after every hover frame at most one video is playing.  And
    whenever a frame resolves something else than the video hovered so far,
    another video or none, it pauses that video in its first call, before
    any [play()] on the video now resolved, and moves
    [currentlyHoveredVideo] to what was resolved: the video left is not
    playing once the frame is over. *)
Theorem hover_plays_at_most_one (s : Script) (h : HoverState)
    (envs : list HoverEnv) (n : nat) :
  exclusive h ->
  let h' := hoverRun s h (take n envs) in
  (forall a b, playing h' a -> playing h' b -> a = b) /\
  (forall env prev,
     currentlyHoveredVideo h' = Some prev ->
     fst <$> intersected h' env <> Some prev ->
     currentlyHoveredVideo (fst (animateHover s h' env))
     = fst <$> intersected h' env /\
     ~ playing (fst (animateHover s h' env)) prev /\
     exists rest,
       snd (animateHover s h' env) = pauseCall prev :: rest /\
       (rest = [] \/
        exists name,
          fst <$> intersected h' env = Some name /\ rest = [playCall name])).
Proof.
  intros Hex h'. split.
  - intros a b. apply exclusive_at_most_one, hoverRun_exclusive, Hex.
  - intros env prev. apply previous_is_paused_first.
Qed.

Lemma initialHover_exclusive : exclusive initialHover.
Proof.
  apply all_paused_exclusive. intros name v Hl. simpl in Hl.
  repeat (apply lookup_insert_Some in Hl as [[_ <-] | [_ Hl]];
          [reflexivity|]).
  rewrite lookup_empty in Hl. discriminate.
Qed.

(** The pointer rests on one video, which plays, and then moves on to
    another one. *)
Lemma hover_plays_at_most_one_witness :
  let envs := [pointerAt ["lunaMoth_webm"%string] 100 100;
               pointerAt ["tigerButterfly_webm"%string] 300 100;
               pointerAt [] 500 500] in
  let h' := hoverRun main_js initialHover (take 1 envs) in
  let env := pointerAt ["tigerButterfly_webm"%string] 300 100 in
  exclusive initialHover /\
  playing h' "lunaMoth_webm" /\
  (forall a b, playing h' a -> playing h' b -> a = b) /\
  currentlyHoveredVideo (fst (animateHover main_js h' env))
  = Some "tigerButterfly_webm"%string /\
  ~ playing (fst (animateHover main_js h' env)) "lunaMoth_webm" /\
  exists rest,
    snd (animateHover main_js h' env) = pauseCall "lunaMoth_webm" :: rest.
Proof.
  intros envs h' env. split; [exact initialHover_exclusive|].
  split; [exists (mkVideo true false); split; reflexivity|].
  destruct (hover_plays_at_most_one main_js initialHover envs 1
              initialHover_exclusive) as [H1 H2].
  split; [exact H1|].
  assert (Hprev : currentlyHoveredVideo h' = Some "lunaMoth_webm"%string)
    by reflexivity.
  assert (Hne : fst <$> intersected h' env <> Some "lunaMoth_webm"%string)
    by (vm_compute; discriminate).
  destruct (H2 env _ Hprev Hne) as (Hcur & Hnot & rest & Hcalls & _).
  split; [exact Hcur|]. split; [exact Hnot|]. exists rest. exact Hcalls.
Defined.

(** ** The gate on hover playback *)

Lemma intersected_lookup (h : HoverState) (env : HoverEnv) (name : string)
    (video : Video) :
  intersected h env = Some (name, video) ->
  videoElements h !! name = Some video.
Proof.
  unfold intersected. destruct (0 <? length (videoMeshes h))%nat; [|discriminate].
  destruct (intersects env) as [|m rest]; [discriminate|].
  destruct (videoElements h !! m) eqn:Hl; [|discriminate].
  intros [= <- <-]. exact Hl.
Qed.

(** C6. In either script, when a frame resolves a video other than the one
    [currentlyHoveredVideo] refers to, [play()] is called on it exactly when
    the audio context has been resumed or the element is muted; otherwise no
    call is made on it and it stays paused.  Either way
    [currentlyHoveredVideo] now refers to it, so a later frame that resolves
    the same video makes no call at all and changes no video, even if the
    audio context has been resumed in the meantime. *)
Theorem hover_play_gate (s : Script) (h : HoverState) (env : HoverEnv)
    (name : string) (video : Video) :
  exclusive h ->
  intersected h env = Some (name, video) ->
  currentlyHoveredVideo h <> Some name ->
  let h1 := fst (animateHover s h env) in
  let calls := snd (animateHover s h env) in
  (In (playCall name) calls <->
   audioContextResumed env = true \/ muted video = true) /\
  (audioContextResumed env = false -> muted video = false ->
   ~ In (pauseCall name) calls /\
   videoElements h1 !! name = Some video /\ paused video = true) /\
  currentlyHoveredVideo h1 = Some name /\
  (forall env2 video2,
     intersected h1 env2 = Some (name, video2) ->
     snd (animateHover s h1 env2) = [] /\
     videoElements (fst (animateHover s h1 env2)) = videoElements h1 /\
     currentlyHoveredVideo (fst (animateHover s h1 env2)) = Some name).
Proof.
  intros Hex Hhit Hne h1 calls.
  assert (Hlook := intersected_lookup h env name video Hhit).
  assert (Hpaused : paused video = true).
  { destruct (paused video) eqn:Hp; [reflexivity|]. exfalso. apply Hne.
    apply Hex. exists video. split; assumption. }
  destruct (animateHover_videos s h env) as (Hv & Hc & _ & Hs).
  assert (Hcur : currentlyHoveredVideo h1 = Some name).
  { subst h1. rewrite Hc. unfold controlPlayback. rewrite Hhit.
    case_decide; [contradiction|].
    destruct (currentlyHoveredVideo h);
      destruct (audioContextResumed env || muted video); reflexivity. }
  split; [|split; [|split; [exact Hcur|]]].
  - subst calls. rewrite Hs. unfold controlPlayback. rewrite Hhit.
    case_decide; [contradiction|].
    rewrite <- orb_true_iff.
    destruct (currentlyHoveredVideo h) as [prev|];
      destruct (audioContextResumed env || muted video); simpl; split;
      intros Hin; try reflexivity; try discriminate; auto;
      repeat (destruct Hin as [Hin|Hin]; try discriminate Hin); contradiction.
  - intros Ha Hm. subst calls h1. rewrite Hs, Hv. unfold controlPlayback.
    rewrite Hhit. case_decide; [contradiction|]. rewrite Ha, Hm. simpl.
    destruct (currentlyHoveredVideo h) as [prev|] eqn:Hprev; simpl.
    + assert (Hpn : prev <> name) by congruence.
      rewrite lookup_alter_ne by exact Hpn.
      split; [|split; assumption].
      intros [Hin|[]]. injection Hin as ->. contradiction.
    + split; [intros []|split; assumption].
  - intros env2 video2 Hhit2.
    destruct (animateHover_videos s h1 env2) as (Hv2 & Hc2 & _ & Hs2).
    rewrite Hs2, Hv2, Hc2. unfold controlPlayback. rewrite Hhit2.
    case_decide; [|contradiction]. repeat split. exact Hcur.
Qed.

Lemma hover_play_gate_witness :
  let h := mkHover
             (<["lunaMoth_webm" := mkVideo false true]>
                (<["tigerButterfly_webm" := mkVideo true false]> ∅))
             ["lunaMoth_webm"; "tigerButterfly_webm"]%string
             (Some "tigerButterfly_webm"%string)
             (mkPanel "Placeholder Text" 0 0 false) in
  let env := pointerAt ["lunaMoth_webm"%string] 100 100 in
  exclusive h /\
  intersected h env = Some ("lunaMoth_webm"%string, mkVideo false true) /\
  snd (animateHover main_js h env) = [pauseCall "tigerButterfly_webm"] /\
  currentlyHoveredVideo (fst (animateHover main_js h env))
  = Some "lunaMoth_webm"%string.
Proof.
  intros h env.
  assert (Hex : exclusive h).
  { intros name (v & Hl & Hp). subst h. simpl in *.
    apply lookup_insert_Some in Hl as [[_ <-] | [_ Hl]]; [discriminate|].
    apply lookup_insert_Some in Hl as [[<- _] | [_ Hl]]; [reflexivity|].
    rewrite lookup_empty in Hl. discriminate. }
  assert (Hhit : intersected h env
                 = Some ("lunaMoth_webm"%string, mkVideo false true))
    by reflexivity.
  assert (Hne : currentlyHoveredVideo h <> Some "lunaMoth_webm"%string)
    by discriminate.
  destruct (hover_play_gate main_js h env _ _ Hex Hhit Hne)
    as (_ & _ & Hcur & _).
  split; [exact Hex|]. split; [exact Hhit|]. split; [reflexivity|exact Hcur].
Defined.

(** ** Where the info panel is put *)









(** ** The pointer in device coordinates *)

Lemma unit_fraction (a b : Q) : 0 < b -> 0 <= a <= b -> 0 <= a / b <= 1.
Proof.
  intros Hb [H0 H1]. split.
  - apply Qle_shift_div_l; [exact Hb | lra].
  - apply Qle_shift_div_r; [exact Hb | lra].
Qed.

Lemma fraction_monotone (a a' b : Q) : 0 < b -> a <= a' -> a / b <= a' / b.
Proof.
  intros Hb Ha. unfold Qdiv. apply Qmult_le_compat_r; [exact Ha|].
  apply Qlt_le_weak, Qinv_lt_0_compat, Hb.
Qed.

(** A pointer event inside a window of positive size stores the client
    coordinates as they are and puts [mouse] inside the square from (-1, 1),
    the top left corner, to (1, -1), the bottom right one: the left edge
    gives -1 and the right edge 1, the top edge 1 and the bottom edge -1,
    [mouse.x] does not decrease when the pointer moves right and [mouse.y]
    does not increase when it moves down.  The value (-2, -2) [mouse]
    starts with is one no such event gives. *)
Theorem mouse_in_device_coordinates (clientX clientY innerWidth innerHeight : Q) :
  0 < innerWidth -> 0 < innerHeight ->
  0 <= clientX <= innerWidth -> 0 <= clientY <= innerHeight ->
  let m := Pointer.onMouseMove clientX clientY innerWidth innerHeight in
  Pointer.currentMouseX m = clientX /\ Pointer.currentMouseY m = clientY /\
  -1 <= Pointer.mouseX m <= 1 /\ -1 <= Pointer.mouseY m <= 1 /\
  (clientX == 0 -> Pointer.mouseX m == -1) /\
  (clientX == innerWidth -> Pointer.mouseX m == 1) /\
  (clientY == 0 -> Pointer.mouseY m == 1) /\
  (clientY == innerHeight -> Pointer.mouseY m == -1) /\
  (forall x' y',
     clientX <= x' -> clientY <= y' ->
     let m' := Pointer.onMouseMove x' y' innerWidth innerHeight in
     Pointer.mouseX m <= Pointer.mouseX m' /\
     Pointer.mouseY m' <= Pointer.mouseY m) /\
  ~ Pointer.mouseX m == Pointer.mouseX Pointer.initial /\
  ~ Pointer.mouseY m == Pointer.mouseY Pointer.initial.
Proof.
  intros Hw Hh Hx Hy m. subst m. unfold Pointer.onMouseMove.
  cbn [Pointer.currentMouseX Pointer.currentMouseY Pointer.mouseX
       Pointer.mouseY Pointer.initial].
  pose proof (unit_fraction clientX innerWidth Hw Hx) as Hfx.
  pose proof (unit_fraction clientY innerHeight Hh Hy) as Hfy.
  assert (Mx : forall x', clientX <= x' ->
                 clientX / innerWidth <= x' / innerWidth)
    by (intros x'; apply fraction_monotone, Hw).
  assert (My : forall y', clientY <= y' ->
                 clientY / innerHeight <= y' / innerHeight)
    by (intros y'; apply fraction_monotone, Hh).
  assert (Ox : clientX == innerWidth -> clientX / innerWidth == 1)
    by (intros E; rewrite E; field; intros E'; rewrite E' in *; lra).
  assert (Oy : clientY == innerHeight -> clientY / innerHeight == 1)
    by (intros E; rewrite E; field; intros E'; rewrite E' in *; lra).
  split; [reflexivity|]. split; [reflexivity|].
  split; [split; lra|]. split; [split; lra|].
  split.
  { intros Hz. assert (clientX / innerWidth == 0); [|lra].
    rewrite Hz. field. intros E'. rewrite E' in *. lra. }
  split; [intros E; specialize (Ox E); lra|].
  split.
  { intros Hz. assert (clientY / innerHeight == 0); [|lra].
    rewrite Hz. field. intros E'. rewrite E' in *. lra. }
  split; [intros E; specialize (Oy E); lra|].
  split; [|split; lra].
  intros x' y' Hx' Hy'. cbv zeta.
  cbn [Pointer.mouseX Pointer.mouseY].
  specialize (Mx x' Hx'). specialize (My y' Hy'). split; lra.
Qed.

Lemma mouse_in_device_coordinates_witness :
  let m := Pointer.onMouseMove 200 150 800 600 in
  (0 < 800 /\ 0 <= 200 <= 800) /\
  -1 <= Pointer.mouseX m <= 1 /\ -1 <= Pointer.mouseY m <= 1.
Proof.
  intros m.
  assert (Hw : 0 < 800) by reflexivity.
  assert (Hh : 0 < 600) by reflexivity.
  assert (Hx : 0 <= 200 <= 800) by (split; discriminate).
  assert (Hy : 0 <= 150 <= 600) by (split; discriminate).
  destruct (mouse_in_device_coordinates 200 150 800 600 Hw Hh Hx Hy)
    as (_ & _ & H1 & H2 & _).
  split; [split; assumption|]. split; assumption.
Defined.

(** ** Keys *)

Lemma step_keyFlag (s : Script) (w : World) (ev : Event) (c : KeyCode) :
  keyFlag (keyStates (input (step_of s w ev))) c
  = match keyEventOf c ev with
    | Some b => b
    | None => keyFlag (keyStates (input w)) c
    end.
Proof.
  destruct s, ev as [k|k| | | | |]; try destruct k; destruct c; simpl;
    try reflexivity;
    unfold MainJs.onWheel, MainJs.onTouchStart, MainJs.onTouchMove,
      MainJs.onTouchEnd, MainJs.animateCamera, Part000.onWheel,
      Part000.animateCamera, MainJs.cameraMovement, Part000.cameraMovement,
      MainJs.scrollMovement, Part000.scrollMovement;
    repeat match goal with
           | |- context [if ?b then _ else _] => destruct b
           | |- context [let '(_, _) := ?b in _] => destruct b
           end; reflexivity.
Qed.

Lemma run_keyFlag (s : Script) (c : KeyCode) (evs : list Event) (w : World) :
  keyFlag (keyStates (input (run_of s w evs))) c
  = default (keyFlag (keyStates (input w)) c) (lastKeyEvent c evs).
Proof.
  unfold lastKeyEvent.
  induction evs as [|ev evs IH] using rev_ind; [reflexivity|].
  unfold run_of in *. rewrite !fold_left_app. simpl.
  rewrite step_keyFlag. destruct (keyEventOf c ev); [reflexivity|].
  apply IH.
Qed.

(** In either script the flag of a movement key after any run of events is
    what the last [keydown] or [keyup] of that key made it, or what it was
    when there was none: wheel, touch and frame events and the other keys
    never change it. *)
Theorem key_flag_follows_last_event (s : Script) (c : KeyCode)
    (evs : list Event) (w : World) :
  keyFlag (keyStates (input (run_of s w evs))) c
  = default (keyFlag (keyStates (input w)) c) (lastKeyEvent c evs) /\
  (lastKeyEvent c evs = None <->
   Forall (fun ev => keyEventOf c ev = None) evs).
Proof.
  split; [apply run_keyFlag|].
  unfold lastKeyEvent.
  induction evs as [|ev evs IH] using rev_ind.
  - split; [constructor | reflexivity].
  - rewrite fold_left_app, Forall_app. simpl.
    destruct (keyEventOf c ev) eqn:He.
    + split; [discriminate|]. intros [_ H]. inversion H; congruence.
    + rewrite IH. split; [intros H; split; [exact H|]|intros [H _]; exact H].
      constructor; [exact He | constructor].
Qed.
(** ** Before the experience starts, and after the page is left *)

Lemma step_while_not_started (s : Script) (w : World) (ev : Event) :
  sceneReady w = false ->
  sceneReady (step_of s w ev) = false /\
  position (step_of s w ev) = position w /\
  scrollVelocityX (input (step_of s w ev)) = scrollVelocityX (input w) /\
  touchStartY (input (step_of s w ev)) = touchStartY (input w).
Proof.
  intros Hr. destruct s, ev; simpl;
    unfold MainJs.onWheel, MainJs.onTouchStart, MainJs.onTouchMove,
      MainJs.onTouchEnd, MainJs.animateCamera, Part000.onWheel,
      Part000.animateCamera;
    rewrite ?Hr; simpl; rewrite ?orb_true_r; simpl;
    repeat match goal with
           | |- context [if ?b then _ else _] => destruct b
           end; simpl; repeat split; assumption.
Qed.

Lemma run_while_not_started (s : Script) (evs : list Event) (w : World) :
  sceneReady w = false ->
  sceneReady (run_of s w evs) = false /\
  position (run_of s w evs) = position w /\
  scrollVelocityX (input (run_of s w evs)) = scrollVelocityX (input w) /\
  touchStartY (input (run_of s w evs)) = touchStartY (input w).
Proof.
  revert w. induction evs as [|ev evs IH]; intros w Hr.
  - repeat split. exact Hr.
  - destruct (step_while_not_started s w ev Hr) as (H1 & H2 & H3 & H4).
    destruct (IH (step_of s w ev) H1) as (K1 & K2 & K3 & K4).
    change (run_of s w (ev :: evs)) with (run_of s (step_of s w ev) evs).
    repeat split; congruence.
Qed.

(** In either script, as long as [sceneReady] is not set, no event moves
    the camera or changes the scroll velocity or [touchStartY]: frames
    return at their guard and wheel and touch input is dropped. *)
Theorem nothing_moves_until_ready (s : Script) (w : World) (evs : list Event) :
  sceneReady w = false ->
  sceneReady (run_of s w evs) = false /\
  position (run_of s w evs) = position w /\
  scrollVelocityX (input (run_of s w evs)) = scrollVelocityX (input w) /\
  touchStartY (input (run_of s w evs)) = touchStartY (input w).
Proof. apply run_while_not_started. Qed.

Lemma nothing_moves_until_ready_witness :
  let w := mkWorld true false
             (mkInput (mkKeys true false false false) 2 0 false)
             (Vector3.mk 1 1 1) in
  let evs := [wheel 100; frame sampleEnv; touchmove [5]; frame sampleEnv] in
  sceneReady w = false /\ position (run_of main_js w evs) = position w.
Proof.
  intros w evs.
  destruct (nothing_moves_until_ready main_js w evs eq_refl) as (_ & H & _).
  split; [reflexivity | exact H].
Defined.

(** Once the [beforeunload] listener of [main.js] has run, no frame, wheel
    or touch event moves the camera or changes the scroll velocity any
    more, whatever the page was doing. *)
Theorem after_unload_nothing_moves (w : World) (evs : list Event) :
  position (run_of main_js (Cleanup.onBeforeUnload w) evs) = position w /\
  scrollVelocityX (input (run_of main_js (Cleanup.onBeforeUnload w) evs))
  = scrollVelocityX (input w).
Proof.
  destruct (run_while_not_started main_js evs (Cleanup.onBeforeUnload w))
    as (_ & H1 & H2 & _); [reflexivity|].
  split; assumption.
Qed.

(** ** Leaving every video *)

(** In either script, a frame whose ray resolves no video leaves
    [currentlyHoveredVideo] empty, the info panel hidden and no video
    playing; it pauses the video hovered before and makes no other call, and
    a further such frame makes no call at all. *)
Theorem hover_leaves (s : Script) (h : HoverState) (env : HoverEnv) :
  exclusive h -> intersected h env = None ->
  let h1 := fst (animateHover s h env) in
  currentlyHoveredVideo h1 = None /\
  displayed (infoPanel h1) = false /\
  (forall name, ~ playing h1 name) /\
  snd (animateHover s h env)
  = match currentlyHoveredVideo h with
    | Some prev => [pauseCall prev]
    | None => []
    end /\
  (forall env2,
     intersected h1 env2 = None ->
     snd (animateHover s h1 env2) = [] /\
     videoElements (fst (animateHover s h1 env2)) = videoElements h1).
Proof.
  intros Hex Hnone h1.
  pose proof (animateHover_exclusive s h env Hex) as Hex1. fold h1 in Hex1.
  assert (Hcur : currentlyHoveredVideo h1 = None).
  { subst h1. unfold animateHover. rewrite Hnone. simpl.
    destruct (currentlyHoveredVideo h) eqn:Hh; simpl; [reflexivity|exact Hh]. }
  split; [exact Hcur|]. split.
  { subst h1. unfold animateHover. rewrite Hnone. simpl.
    destruct (currentlyHoveredVideo h); reflexivity. }
  split.
  { intros name Hp. apply Hex1 in Hp. congruence. }
  split.
  { unfold animateHover. rewrite Hnone. simpl.
    destruct (currentlyHoveredVideo h); reflexivity. }
  intros env2 Hnone2. unfold animateHover. rewrite Hnone2. simpl.
  rewrite Hcur. split; reflexivity.
Qed.

Lemma hover_leaves_witness :
  let h := fst (animateHover main_js initialHover
                  (pointerAt ["lunaMoth_webm"%string] 100 100)) in
  let env := pointerAt [] 500 500 in
  exclusive h /\ intersected h env = None /\
  snd (animateHover main_js h env) = [pauseCall "lunaMoth_webm"] /\
  currentlyHoveredVideo (fst (animateHover main_js h env)) = None.
Proof.
  intros h env.
  assert (Hex : exclusive h)
    by (apply animateHover_exclusive, initialHover_exclusive).
  destruct (hover_leaves main_js h env Hex eq_refl) as (H1 & _ & _ & H4 & _).
  split; [exact Hex|]. split; [reflexivity|]. split; [exact H4 | exact H1].
Defined.

(** ** From the empty hover state *)

Lemma registerVideo_exclusive (name : string) (h : HoverState) :
  exclusive h -> exclusive (registerVideo name h).
Proof.
  intros Hex n (v & Hl & Hp). simpl in *.
  apply lookup_insert_Some in Hl as [[_ <-] | [_ Hl]]; [discriminate|].
  apply Hex. exists v. split; assumption.
Qed.

Lemma registerVideo_allMuted (name : string) (h : HoverState) :
  allMuted h -> allMuted (registerVideo name h).
Proof.
  intros Hm n v Hl. simpl in Hl.
  apply lookup_insert_Some in Hl as [[_ <-] | [_ Hl]]; [reflexivity|].
  apply (Hm n v Hl).
Qed.

Lemma controlPlayback_allMuted (h : HoverState) (env : HoverEnv)
    (hit : option (string * Video)) :
  allMuted h -> allMuted (fst (controlPlayback h env hit)).
Proof.
  intros Hm.
  assert (Hpause : forall prev, allMuted
            (mkHover (alter pause prev (videoElements h)) (videoMeshes h) None
               (infoPanel h))).
  { intros prev n v Hl. simpl in Hl.
    apply lookup_alter_Some in Hl as [[_ (x & Hx & ->)] | [_ Hl]];
      [exact (Hm n x Hx) | exact (Hm n v Hl)]. }
  unfold controlPlayback. destruct hit as [[name video]|].
  - case_decide; [exact Hm|].
    assert (H1 : forall n v,
               (match currentlyHoveredVideo h with
                | Some prev => alter pause prev (videoElements h)
                | None => videoElements h
                end) !! n = Some v -> muted v = true).
    { destruct (currentlyHoveredVideo h) as [prev|];
        [exact (Hpause prev) | exact Hm]. }
    destruct (currentlyHoveredVideo h) as [prev|];
      destruct (audioContextResumed env || muted video); simpl;
      intros n v Hl; simpl in Hl;
      try (exact (H1 n v Hl));
      (apply lookup_alter_Some in Hl as [[_ (x & Hx & ->)] | [_ Hl]];
       [| exact (H1 n v Hl)]);
      unfold play; destruct (playStarts env); simpl; exact (H1 _ x Hx).
  - destruct (currentlyHoveredVideo h) as [prev|]; [apply Hpause | exact Hm].
Qed.

Lemma hoverStep_keeps (s : Script) (h : HoverState) (ev : HoverEvent) :
  exclusive h /\ allMuted h ->
  exclusive (hoverStep s h ev) /\ allMuted (hoverStep s h ev).
Proof.
  intros [Hex Hm]. destruct ev as [name|env]; simpl.
  - split; [apply registerVideo_exclusive, Hex
           | apply registerVideo_allMuted, Hm].
  - split; [apply animateHover_exclusive, Hex|].
    destruct (animateHover_videos s h env) as (Hv & _).
    intros n v Hl. rewrite Hv in Hl.
    exact (controlPlayback_allMuted h env _ Hm n v Hl).
Qed.

Lemma hoverEvents_keep (s : Script) (evs : list HoverEvent) (h : HoverState) :
  exclusive h /\ allMuted h ->
  exclusive (hoverEvents s h evs) /\ allMuted (hoverEvents s h evs).
Proof.
  revert h. induction evs as [|ev evs IH]; intros h H; [exact H|].
  apply (IH (hoverStep s h ev)), hoverStep_keeps, H.
Qed.

(** In either script, start from the empty hover state and let video
    elements be registered for meshes of distinct names, at any moments
    between frames.  Then after every event at most one video is playing and
    every video is muted; so the gate on playback never holds a video back:
    a frame that resolves a video not yet hovered calls [play()] on it even
    while the audio context has not been resumed. *)
Theorem hover_from_start (s : Script) (evs : list HoverEvent) (n : nat) :
  NoDup (registeredNames evs) ->
  let h := hoverEvents s emptyHover (take n evs) in
  (forall a b, playing h a -> playing h b -> a = b) /\
  allMuted h /\
  (forall env name video,
     intersected h env = Some (name, video) ->
     currentlyHoveredVideo h <> Some name ->
     In (playCall name) (snd (animateHover s h env))).
Proof.
  intros _ h.
  assert (H0 : exclusive emptyHover /\ allMuted emptyHover).
  { split.
    - intros name (v & Hl & _). simpl in Hl. rewrite lookup_empty in Hl.
      discriminate.
    - intros name v Hl. simpl in Hl. rewrite lookup_empty in Hl.
      discriminate. }
  destruct (hoverEvents_keep s (take n evs) emptyHover H0) as [Hex Hm].
  fold h in Hex, Hm.
  split; [intros a b; apply exclusive_at_most_one, Hex|].
  split; [exact Hm|].
  intros env name video Hhit Hne.
  pose proof (intersected_lookup h env name video Hhit) as Hl.
  pose proof (Hm name video Hl) as Hmuted.
  destruct (animateHover_videos s h env) as (_ & _ & _ & Hs). rewrite Hs.
  unfold controlPlayback. rewrite Hhit. case_decide; [contradiction|].
  rewrite Hmuted, orb_true_r.
  destruct (currentlyHoveredVideo h); simpl; auto.
Qed.

Lemma hover_from_start_witness :
  let evs := [videoRegistered "lunaMoth_webm";
              hoverFrame (pointerAt ["lunaMoth_webm"%string] 100 100);
              videoRegistered "tigerButterfly_webm";
              hoverFrame (pointerAt ["tigerButterfly_webm"%string] 300 100)] in
  let h := hoverEvents main_js emptyHover (take 3 evs) in
  NoDup (registeredNames evs) /\
  (forall a b, playing h a -> playing h b -> a = b) /\
  In (playCall "tigerButterfly_webm")
    (snd (animateHover main_js h
            (pointerAt ["tigerButterfly_webm"%string] 300 100))).
Proof.
  intros evs h.
  assert (Hnd : NoDup (registeredNames evs)).
  { apply (bool_decide_unpack (NoDup (registeredNames evs))).
    vm_compute. exact I. }
  destruct (hover_from_start main_js evs 3 Hnd) as (H1 & _ & H3).
  split; [exact Hnd|]. split; [exact H1|].
  apply (H3 _ _ (mkVideo true true)); [reflexivity | discriminate].
Defined.
(** ** Setting up the video planes *)

Lemma videoFileMap_complete (n : string) :
  n ∈ Setup.videoPlanes ->
  exists sp dp,
    Setup.videoFileMap !! n = Some (Setup.mkInfo (Some sp) (Some dp)).
Proof.
  unfold Setup.videoPlanes. intros H.
  repeat (apply elem_of_cons in H as [->|H]; [eexists _, _; reflexivity|]).
  apply elem_of_nil in H. contradiction.
Qed.

Lemma insert_is_Some_iff (m : gmap string string) (i j x : string) :
  is_Some (<[i := x]> m !! j) <-> is_Some (m !! j) \/ j = i.
Proof.
  rewrite lookup_insert_is_Some.
  destruct (decide (i = j)) as [E|E]; split.
  - intros _. right. congruence.
  - intros _. left. exact E.
  - intros [Heq|[_ H]]; [contradiction | left; exact H].
  - intros [H|Heq]; [right; split; assumption | congruence].
Qed.

Lemma wantedNames_snoc (children : list Setup.Child) (c : Setup.Child) :
  Setup.wantedNames (children ++ [c])
  = Setup.wantedNames children
    ++ (if Setup.wanted c then [Setup.name c] else []).
Proof.
  unfold Setup.wantedNames. rewrite List.filter_app, map_app. simpl.
  destruct (Setup.wanted c); reflexivity.
Qed.

Lemma traverse_snoc (s : Script) (isSafari : bool)
    (children : list Setup.Child) (c : Setup.Child) :
  Setup.traverse s isSafari (children ++ [c])
  = Setup.visit s isSafari (Setup.traverse s isSafari children) c.
Proof. unfold Setup.traverse. rewrite fold_left_app. reflexivity. Qed.

(** What visiting a wanted node does: on the direct path the video is
    registered at once; with a canvas texture it waits for its metadata. *)
Lemma visit_wanted (s : Script) (isSafari : bool) (st : Setup.State)
    (c : Setup.Child) :
  Setup.wanted c = true ->
  exists path,
    Setup.visit s isSafari st c
    = if match s with main_js => isSafari | part_000 => false end
      then Setup.mkState (Setup.hover st)
             (<[Setup.name c := path]> (Setup.videoSources st))
             (Setup.awaitingMetadata st ++ [Setup.name c])
             (S (Setup.videoMeshesFoundCount st))
      else Setup.mkState (registerVideo (Setup.name c) (Setup.hover st))
             (<[Setup.name c := path]> (Setup.videoSources st))
             (Setup.awaitingMetadata st)
             (S (Setup.videoMeshesFoundCount st)).
Proof.
  intros Hw. unfold Setup.visit. rewrite Hw.
  assert (Hin : Setup.name c ∈ Setup.videoPlanes).
  { unfold Setup.wanted in Hw. apply andb_true_iff in Hw as [_ Hw].
    apply bool_decide_eq_true in Hw. exact Hw. }
  destruct (videoFileMap_complete _ Hin) as (sp & dp & Hmap).
  destruct s; [|eexists; reflexivity].
  rewrite Hmap. simpl. destruct isSafari; eexists; reflexivity.
Qed.

(** The traversal of the loaded scene, for any scene.  It counts the meshes
    named in [videoPlanes] and creates a video element, with a source, for
    each of them: none is skipped for want of a path.  On the direct path
    (the earlier script, and [main.js] outside Safari) those videos are
    registered at once, muted and paused, in scene order; in [main.js] on
    Safari nothing is registered yet and the hover state is still empty.
    The count warning is logged unless exactly three meshes were found. *)
Theorem traverse_registers_video_planes (s : Script) (isSafari : bool)
    (children : list Setup.Child) :
  let st := Setup.traverse s isSafari children in
  let names := Setup.wantedNames children in
  Setup.videoMeshesFoundCount st = length names /\
  (forall n, is_Some (Setup.videoSources st !! n) <-> n ∈ names) /\
  (match s with main_js => isSafari | part_000 => false end = false ->
   videoMeshes (Setup.hover st) = names /\
   Setup.awaitingMetadata st = [] /\
   forall n v,
     videoElements (Setup.hover st) !! n = Some v <->
     n ∈ names /\ v = mkVideo true true) /\
  (match s with main_js => isSafari | part_000 => false end = true ->
   Setup.hover st = emptyHover /\ Setup.awaitingMetadata st = names) /\
  (Setup.countWarning st = false <-> length names = 3%nat).
Proof.
  intros st names. subst st names.
  set (canvas := match s with main_js => isSafari | part_000 => false end).
  assert (Main :
    Setup.videoMeshesFoundCount (Setup.traverse s isSafari children)
    = length (Setup.wantedNames children) /\
    (forall n, is_Some (Setup.videoSources (Setup.traverse s isSafari children) !! n)
               <-> n ∈ Setup.wantedNames children) /\
    (canvas = false ->
     videoMeshes (Setup.hover (Setup.traverse s isSafari children))
     = Setup.wantedNames children /\
     Setup.awaitingMetadata (Setup.traverse s isSafari children) = [] /\
     forall n v,
       videoElements (Setup.hover (Setup.traverse s isSafari children)) !! n
       = Some v <->
       n ∈ Setup.wantedNames children /\ v = mkVideo true true) /\
    (canvas = true ->
     Setup.hover (Setup.traverse s isSafari children) = emptyHover /\
     Setup.awaitingMetadata (Setup.traverse s isSafari children)
     = Setup.wantedNames children)).
  { induction children as [|c children IH] using rev_ind.
    - simpl. split; [reflexivity|]. split.
      { intros n. simpl. rewrite lookup_empty. split.
        - intros [x Hx]. discriminate.
        - intros H. apply elem_of_nil in H. contradiction. }
      split; intros _.
      + split; [reflexivity|]. split; [reflexivity|].
        intros n v. simpl. rewrite lookup_empty. split; [discriminate|].
        intros [H _]. apply elem_of_nil in H. contradiction.
      + split; reflexivity.
    - destruct IH as (Hc & Hs & Hd & Hcv).
      rewrite traverse_snoc, wantedNames_snoc.
      destruct (Setup.wanted c) eqn:Hw.
      + destruct (visit_wanted s isSafari
                    (Setup.traverse s isSafari children) c Hw) as [path Hv].
        rewrite Hv. fold canvas. destruct canvas; simpl.
        * split; [rewrite length_app, Hc; simpl; lia|]. split.
          { intros n. rewrite elem_of_app, list_elem_of_singleton, <- Hs.
            apply insert_is_Some_iff. }
          split; [discriminate|]. intros _.
          destruct (Hcv eq_refl) as [H1 H2]. split; [exact H1|].
          rewrite H2. reflexivity.
        * split; [rewrite length_app, Hc; simpl; lia|]. split.
          { intros n. rewrite elem_of_app, list_elem_of_singleton, <- Hs.
            apply insert_is_Some_iff. }
          split; [|discriminate]. intros _.
          destruct (Hd eq_refl) as (H1 & H2 & H3).
          split; [rewrite H1; reflexivity|]. split; [exact H2|].
          intros n v. rewrite elem_of_app, list_elem_of_singleton.
          rewrite lookup_insert_Some, H3.
          destruct (decide (Setup.name c = n)) as [E|E]; split.
          { intros [[_ <-]|[Hne _]];
              [split; [right; congruence | reflexivity] | contradiction]. }
          { intros [_ ->]. left. split; [exact E | reflexivity]. }
          { intros [[Heq _]|[_ [Hin ->]]];
              [contradiction | split; [left; exact Hin | reflexivity]]. }
          { intros [[Hin|Heq] ->];
              [right; split; [exact E | split; [exact Hin | reflexivity]]
              | congruence]. }
      + unfold Setup.visit. rewrite Hw, app_nil_r.
        split; [exact Hc|]. split; [exact Hs|]. split; assumption. }
  destruct Main as (Hc & Hs & Hd & Hcv).
  split; [exact Hc|]. split; [exact Hs|]. split; [exact Hd|].
  split; [exact Hcv|].
  unfold Setup.countWarning. rewrite Hc, negb_false_iff, Nat.eqb_eq.
  reflexivity.
Qed.
(** ** Loading the model file *)

Lemma findCamera_choice (cameras : list Loader.GltfCamera) :
  match cameras with
  | [] => Loader.findCamera cameras = None
  | first :: _ =>
      exists cam,
        Loader.findCamera cameras = Some cam /\ In cam cameras /\
        (Loader.name cam = "MyExportCamera"%string \/
         Forall (fun c => Loader.name c <> "MyExportCamera"%string) cameras /\
         cam = first)
  end.
Proof.
  destruct cameras as [|first rest]; [reflexivity|].
  unfold Loader.findCamera.
  destruct (List.find _ (first :: rest)) as [cam|] eqn:Hf.
  - apply find_some in Hf as [Hin Hn]. exists cam.
    split; [reflexivity|]. split; [exact Hin|]. left.
    apply String.eqb_eq, Hn.
  - exists first. split; [reflexivity|]. split; [left; reflexivity|]. right.
    split; [|reflexivity]. apply Forall_forall. intros c Hc Hname.
    apply list_elem_of_In in Hc.
    pose proof (find_none _ _ Hf c Hc) as Hno. simpl in Hno.
    rewrite Hname in Hno. discriminate.
Qed.

(** The camera part of the load callback, for any list of cameras in the
    file.  The listener and the background sound object are created exactly
    when a camera is in place.  [main.js] always ends with a camera: the one
    named MyExportCamera if the file has one, else its first camera, else
    its own fallback; the earlier script has none exactly when the file has
    none.  A camera taken from the file is put inside the bounds. *)
Theorem load_chooses_camera (s : Script) (cameras : list Loader.GltfCamera) :
  let o := Loader.onLoad s cameras in
  Loader.listener o = Loader.isCameraLoaded o /\
  Loader.backgroundSound o = Loader.isCameraLoaded o /\
  (Loader.isCameraLoaded o = true <-> is_Some (Loader.importedCamera o)) /\
  (Loader.isCameraLoaded o = false <-> s = part_000 /\ cameras = []) /\
  (cameras = [] -> s = main_js ->
   Loader.importedCamera o = Some MainJs.fallbackCameraPosition) /\
  (cameras <> [] ->
   exists cam,
     In cam cameras /\
     (Loader.name cam = "MyExportCamera"%string \/
      Forall (fun c => Loader.name c <> "MyExportCamera"%string) cameras /\
      head cameras = Some cam) /\
     Loader.importedCamera o
     = Some (clampInitial (bounds_of s) (Loader.position cam)) /\
     forall p, Loader.importedCamera o = Some p -> in_bounds (bounds_of s) p).
Proof.
  intros o. subst o. pose proof (findCamera_choice cameras) as Hf.
  destruct cameras as [|first rest].
  - destruct s; unfold Loader.onLoad; simpl.
    + split; [reflexivity|]. split; [reflexivity|].
      split; [split; [intros _; eexists; reflexivity | reflexivity]|].
      split; [split; [discriminate | intros [H _]; discriminate]|].
      split; [reflexivity|]. intros H. contradiction.
    + split; [reflexivity|]. split; [reflexivity|].
      split; [split; [discriminate | intros [x Hx]; discriminate]|].
      split; [split; [intros _; split; reflexivity | reflexivity]|].
      split; [discriminate|]. intros H. contradiction.
  - destruct Hf as (cam & Hfind & Hin & Hname).
    assert (Hout : Loader.onLoad s (first :: rest)
                   = Loader.mkOutcome
                       (Some (clampInitial (bounds_of s) (Loader.position cam)))
                       true true true).
    { unfold Loader.onLoad. rewrite Hfind. destruct s; reflexivity. }
    rewrite Hout. simpl.
    split; [reflexivity|]. split; [reflexivity|].
    split; [split; [intros _; eexists; reflexivity | reflexivity]|].
    split; [split; [discriminate | intros [_ H]; discriminate]|].
    split; [discriminate|].
    intros _. exists cam. split; [exact Hin|]. split.
    { destruct Hname as [Hn|[Hall ->]];
        [left; exact Hn | right; split; [exact Hall | reflexivity]]. }
    split; [reflexivity|].
    intros p [= <-]. apply clampInitial_in_bounds.
    destruct s; [apply mainjs_bounds_wf | apply part000_bounds_wf].
Qed.

(** ** The loading manager *)

Lemma floor_ge (z : Z) (x : Q) : (z <= Qfloor x)%Z <-> inject_Z z <= x.
Proof.
  split.
  - intros H. apply Qle_trans with (inject_Z (Qfloor x)); [|apply Qfloor_le].
    rewrite <- Zle_Qle. exact H.
  - intros H. rewrite <- (Qfloor_Z z). apply Qfloor_resp_le, H.
Qed.

Lemma floor_le (z : Z) (x : Q) : (Qfloor x <= z)%Z <-> x < inject_Z (z + 1).
Proof.
  split.
  - intros H. apply Qlt_le_trans with (inject_Z (Qfloor x + 1));
      [apply Qlt_floor|]. rewrite <- Zle_Qle. lia.
  - intros H. destruct (Z_le_gt_dec (Qfloor x) z) as [Hle|Hgt]; [exact Hle|].
    exfalso. assert (Hz : (z + 1 <= Qfloor x)%Z) by lia.
    apply floor_ge in Hz. apply (Qlt_not_le _ _ H), Hz.
Qed.

Lemma loaded_fraction (l t : nat) :
  (0 < t)%nat ->
  let L := inject_Z (Z.of_nat l) in
  let T := inject_Z (Z.of_nat t) in
  0 < T /\ 0 <= L /\ (L / T * 100) * T == 100 * L.
Proof.
  intros Ht L T.
  assert (HT : 0 < T).
  { subst T. change 0 with (inject_Z 0). rewrite <- Zlt_Qlt. lia. }
  split; [exact HT|]. split; [apply inject_nat_nonneg|].
  field. intros E. rewrite E in HT. discriminate.
Qed.

Lemma nat_le_Q (a b : nat) :
  (a <= b)%nat <-> inject_Z (Z.of_nat a) <= inject_Z (Z.of_nat b).
Proof. rewrite <- Zle_Qle. apply Nat2Z.inj_le. Qed.

(** The percentage the loading manager shows, for a positive total and at
    most that many items loaded: it lies between 0 and 100 and grows with
    the number of items loaded; it is 100 when everything is loaded, but
    already from 99.5 percent on, because of rounding. *)
Theorem progress_percent (itemsLoaded itemsTotal : nat) :
  (0 < itemsTotal)%nat -> (itemsLoaded <= itemsTotal)%nat ->
  (0 <= LoadingManager.progress itemsLoaded itemsTotal <= 100)%Z /\
  (forall fewer, (fewer <= itemsLoaded)%nat ->
     (LoadingManager.progress fewer itemsTotal
      <= LoadingManager.progress itemsLoaded itemsTotal)%Z) /\
  (LoadingManager.progress itemsLoaded itemsTotal = 100%Z <->
   (199 * itemsTotal <= 200 * itemsLoaded)%nat) /\
  (itemsLoaded = itemsTotal ->
   LoadingManager.progressLabel itemsLoaded itemsTotal
   = "Loading... 100%"%string).
Proof.
  intros Ht Hle.
  assert (Hchar : forall l, (l <= itemsTotal)%nat ->
            (0 <= LoadingManager.progress l itemsTotal <= 100)%Z /\
            ((100 <= LoadingManager.progress l itemsTotal)%Z <->
             (199 * itemsTotal <= 200 * l)%nat)).
  { intros l Hl. destruct (loaded_fraction l itemsTotal Ht) as (HT & HL & Hq).
    apply nat_le_Q in Hl.
    assert (H199 : (199 * itemsTotal <= 200 * l)%nat <->
                   199 * inject_Z (Z.of_nat itemsTotal)
                   <= 200 * inject_Z (Z.of_nat l)).
    { rewrite nat_le_Q, !Nat2Z.inj_mul, !inject_Z_mult. reflexivity. }
    unfold LoadingManager.progress, LoadingManager.round.
    revert Hq.
    generalize (inject_Z (Z.of_nat l) / inject_Z (Z.of_nat itemsTotal) * 100).
    intros q Hq. revert HT HL Hl Hq H199.
    generalize (inject_Z (Z.of_nat l)) as L,
               (inject_Z (Z.of_nat itemsTotal)) as T.
    intros L T HT HL Hl Hq H199.
    assert (Hq0 : 0 <= q).
    { destruct (Qlt_le_dec q 0) as [Hneg|Hpos]; [|exact Hpos]. exfalso. nra. }
    assert (Hq1 : q <= 100).
    { destruct (Qlt_le_dec 100 q) as [Hbig|Hok]; [|exact Hok]. exfalso. nra. }
    split; [split|].
    - apply floor_ge. change (inject_Z 0) with 0. lra.
    - apply floor_le. change (inject_Z (100 + 1)) with 101. lra.
    - rewrite floor_ge, H199. change (inject_Z 100) with 100.
      split; intros H.
      + assert (Hp : 0 <= (q - (199 # 2)) * T)
          by (apply Qmult_le_0_compat; lra).
        lra.
      + destruct (Qlt_le_dec (q + (1 # 2)) 100) as [Hlow|Hok]; [|exact Hok].
        exfalso.
        assert (Hp : 0 < ((199 # 2) - q) * T)
          by (apply Qmult_lt_0_compat; lra).
        lra. }
  destruct (Hchar itemsLoaded Hle) as [Hb H100].
  split; [exact Hb|]. split.
  { intros fewer Hf. unfold LoadingManager.progress, LoadingManager.round.
    apply Qfloor_resp_le.
    destruct (loaded_fraction itemsLoaded itemsTotal Ht) as (HT & _ & _).
    apply nat_le_Q in Hf. apply Qplus_le_l.
    apply Qmult_le_compat_r; [|discriminate].
    apply Qmult_le_compat_r; [exact Hf|].
    apply Qlt_le_weak, Qinv_lt_0_compat, HT. }
  split.
  { rewrite <- H100. lia. }
  intros ->. unfold LoadingManager.progressLabel.
  assert (E : LoadingManager.progress itemsTotal itemsTotal = 100%Z).
  { destruct (Hchar itemsTotal (Nat.le_refl _)) as [Hb' H100'].
    assert ((100 <= LoadingManager.progress itemsTotal itemsTotal)%Z)
      by (apply H100'; lia).
    lia. }
  rewrite E. reflexivity.
Qed.

Lemma progress_percent_witness :
  (0 < 1000)%nat /\ (995 <= 1000)%nat /\
  LoadingManager.progress 995 1000 = 100%Z /\
  (0 <= LoadingManager.progress 995 1000 <= 100)%Z.
Proof.
  assert (Ht : (0 < 1000)%nat) by lia.
  assert (Hl : (995 <= 1000)%nat) by lia.
  destruct (progress_percent 995 1000 Ht Hl) as (Hb & _ & H100 & _).
  split; [exact Ht|]. split; [exact Hl|]. split; [|exact Hb].
  apply H100. lia.
Defined.
(** ** The life of a canvas-sampled texture *)

Lemma updateCanvasTexture_sound (a : CanvasVideoTexture.t) (next : positive) :
  (0 < CanvasVideoTexture.canvasWidth a)%nat ->
  (0 < CanvasVideoTexture.canvasHeight a)%nat ->
  canvasSound (CanvasVideoTexture.updateCanvasTexture a next).
Proof.
  intros Hw Hh. unfold canvasSound, CanvasVideoTexture.updateCanvasTexture.
  destruct (CanvasVideoTexture.HAVE_CURRENT_DATA
            <=? CanvasVideoTexture.readyState (CanvasVideoTexture.video a))%nat;
    [destruct (negb _ || negb _);
     [destruct ((0 <? _)%nat && (0 <? _)%nat) eqn:Hv|]|];
    simpl; (split; [right; reflexivity|]); try (split; assumption).
  apply andb_true_iff in Hv as [Hv1 Hv2]. apply Nat.ltb_lt in Hv1, Hv2.
  split; assumption.
Qed.

Lemma canvas_step_sound (a : CanvasVideoTexture.t) (ev : CanvasLifecycle.Event) :
  canvasSound a -> canvasSound (CanvasLifecycle.step a ev).
Proof.
  intros (Hl & Hw & Hh). destruct ev as [next| |state width height]; simpl.
  - unfold CanvasVideoTexture.hostFrame.
    destruct (CanvasVideoTexture.requested a);
      [apply updateCanvasTexture_sound; assumption | repeat split; assumption].
  - unfold canvasSound, CanvasLifecycle.onVideoError, CanvasVideoTexture.linked
      in *. simpl. split; [|split; assumption].
    destruct (CanvasVideoTexture.animationFrameId a) as [id|];
      [|exact Hl].
    destruct Hl as [Hl|Hl]; rewrite Hl; simpl; [left; reflexivity|].
    rewrite Pos.eqb_refl. left. reflexivity.
  - repeat split; assumption.
Qed.

Lemma canvas_run_sound (evs : list CanvasLifecycle.Event) :
  forall a, canvasSound a -> canvasSound (CanvasLifecycle.run a evs).
Proof.
  induction evs as [|ev evs IH]; intros a H; [exact H|].
  apply (IH (CanvasLifecycle.step a ev)), canvas_step_sound, H.
Qed.

Lemma dispose_cancels (a : CanvasVideoTexture.t) :
  CanvasVideoTexture.linked a ->
  CanvasVideoTexture.requested (CanvasVideoTexture.dispose a) = None.
Proof.
  unfold CanvasVideoTexture.linked, CanvasVideoTexture.dispose.
  destruct (CanvasVideoTexture.animationFrameId a) as [id|];
    intros [Hl|Hl]; rewrite Hl; simpl; try reflexivity; try discriminate.
  rewrite Pos.eqb_refl. reflexivity.
Qed.

Lemma disposed_is_still (a : CanvasVideoTexture.t) (ids : list positive) :
  CanvasVideoTexture.requested a = None ->
  fold_left CanvasVideoTexture.hostFrame ids a = a.
Proof.
  intros Hr. induction ids as [|id ids IH]; [reflexivity|].
  simpl. unfold CanvasVideoTexture.hostFrame at 2. rewrite Hr. exact IH.
Qed.

(** A canvas-sampled texture from its [loadedmetadata] event on, whatever
    the video reports and whatever frames, media changes and video errors
    follow: the canvas never gets an empty size, and the only frame request
    the host holds is the one [dispose()] cancels.  So [dispose()] stops the
    sampling for good at any moment.  And a frame that finds decoded data of
    valid dimensions leaves the canvas at exactly the size of the video and
    marks the texture for upload. *)
Theorem canvas_sampling_lifecycle (videoPath : string) (state width height : nat)
    (starts : bool) (first : positive) (evs : list CanvasLifecycle.Event) :
  let a := CanvasLifecycle.run
             (CanvasLifecycle.onLoadedMetadata
                (CanvasLifecycle.mediaChanged (CanvasLifecycle.created videoPath)
                   state width height) starts first) evs in
  (0 < CanvasVideoTexture.canvasWidth a)%nat /\
  (0 < CanvasVideoTexture.canvasHeight a)%nat /\
  CanvasVideoTexture.requested (CanvasVideoTexture.dispose a) = None /\
  (forall ids,
     fold_left CanvasVideoTexture.hostFrame ids (CanvasVideoTexture.dispose a)
     = CanvasVideoTexture.dispose a) /\
  (forall next,
     is_Some (CanvasVideoTexture.requested a) ->
     (CanvasVideoTexture.HAVE_CURRENT_DATA
      <= CanvasVideoTexture.readyState (CanvasVideoTexture.video a))%nat ->
     (0 < CanvasVideoTexture.videoWidth (CanvasVideoTexture.video a))%nat ->
     (0 < CanvasVideoTexture.videoHeight (CanvasVideoTexture.video a))%nat ->
     let a' := CanvasVideoTexture.hostFrame a next in
     CanvasVideoTexture.canvasWidth a'
     = CanvasVideoTexture.videoWidth (CanvasVideoTexture.video a) /\
     CanvasVideoTexture.canvasHeight a'
     = CanvasVideoTexture.videoHeight (CanvasVideoTexture.video a) /\
     CanvasVideoTexture.needsUpdate a' = true /\
     CanvasVideoTexture.requested a' = Some next).
Proof.
  intros a.
  assert (Hsound : canvasSound a).
  { subst a. apply canvas_run_sound.
    unfold CanvasLifecycle.onLoadedMetadata.
    destruct ((0 <? _)%nat && (0 <? _)%nat) eqn:Hv.
    - apply andb_true_iff in Hv as [Hv1 Hv2]. apply Nat.ltb_lt in Hv1, Hv2.
      apply updateCanvasTexture_sound; assumption.
    - apply updateCanvasTexture_sound; simpl; lia. }
  destruct Hsound as (Hl & Hw & Hh).
  assert (Hreq : CanvasVideoTexture.requested (CanvasVideoTexture.dispose a)
                 = None).
  { apply dispose_cancels, Hl. }
  split; [exact Hw|]. split; [exact Hh|]. split; [exact Hreq|].
  split; [intros ids; apply disposed_is_still, Hreq|].
  intros next [r Hr] Hdata Hvw Hvh a'. subst a'.
  unfold CanvasVideoTexture.hostFrame. rewrite Hr.
  unfold CanvasVideoTexture.updateCanvasTexture.
  cbn [CanvasVideoTexture.video CanvasVideoTexture.canvasWidth
       CanvasVideoTexture.canvasHeight CanvasVideoTexture.needsUpdate
       CanvasVideoTexture.textureDisposed].
  apply Nat.leb_le in Hdata. rewrite Hdata.
  apply Nat.ltb_lt in Hvw, Hvh. rewrite Hvw, Hvh.
  destruct (negb _ || negb _) eqn:Hdiff; simpl; [repeat split|].
  apply orb_false_iff in Hdiff as [H1 H2].
  apply negb_false_iff, Nat.eqb_eq in H1, H2.
  repeat split; assumption.
Qed.

(** ** Pointer input on the page before the experience starts *)














Import Readiness.

Ltac crush_state st :=
  destruct st as [c r l b a p [oh pt pd bd bt bh al] [loops clocks plays]];
  simpl in *; subst.

(** ** No animation loop without a camera *)

Lemma startExperience_started (s : Script) (st : State) :
  sceneReady st = true -> startExperience s st = st.
Proof. intros H. unfold startExperience. rewrite H. reflexivity. Qed.

Lemma startExperience_effect (s : Script) (st : State) :
  let st' := startExperience s st in
  sceneReady st = false ->
  sceneReady st' = true /\
  isCameraLoaded st' = isCameraLoaded st /\ listener st' = listener st /\
  backgroundSound st' = backgroundSound st /\
  pendingResumes st' = pendingResumes st /\
  buttonHidden (dom st') = buttonHidden (dom st) /\
  playsOf st' = playsOf st /\
  loopsOf st' = (if isCameraLoaded st then S (loopsOf st) else loopsOf st).
Proof.
  intros st' Hr. subst st'. crush_state st. unfold startExperience. simpl.
  destruct c, s; simpl; repeat split.
Qed.

Lemma playBackgroundSound_effect (playThrows : bool) (st : State) :
  let st' := playBackgroundSound playThrows st in
  sceneReady st' = sceneReady st /\
  isCameraLoaded st' = isCameraLoaded st /\ listener st' = listener st /\
  pendingResumes st' = pendingResumes st /\ dom st' = dom st /\
  loopsOf st' = loopsOf st /\
  (playsOf st' = playsOf st /\ backgroundSound st' = backgroundSound st \/
   backgroundSound st = Some false /\ backgroundSound st' = Some true /\
   playsOf st' = S (playsOf st)).
Proof.
  intros st'. subst st'. crush_state st. unfold playBackgroundSound. simpl.
  destruct b as [[|]|], a, playThrows; simpl; repeat split; auto.
Qed.

(** Once [sceneReady] is set, no gesture starts a loop or changes the
    messages shown. *)
Lemma handle_when_started (s : Script) (st : State) (g : Gesture) :
  sceneReady st = true ->
  let st' := handle s st g in
  sceneReady st' = true /\ loopsOf st' = loopsOf st /\
  progressText (dom st') = progressText (dom st) /\
  alerts (dom st') = alerts (dom st).
Proof.
  intros Hr st'. subst st'. crush_state st.
  destruct s, g as [[| |] [|]|[|]|], l, b as [[|]|], a, p; cbv; repeat split.
Qed.

Lemma run_when_started (s : Script) (gs : list Gesture) : forall st,
  sceneReady st = true ->
  let st' := run s st gs in
  sceneReady st' = true /\ loopsOf st' = loopsOf st /\
  progressText (dom st') = progressText (dom st) /\
  alerts (dom st') = alerts (dom st).
Proof.
  induction gs as [|g gs IH]; intros st Hr; simpl; [repeat split; exact Hr|].
  destruct (handle_when_started s st g Hr) as (H1 & H2 & H3 & H4).
  destruct (IH (handle s st g) H1) as (K1 & K2 & K3 & K4).
  repeat split; congruence.
Qed.

(** Without a camera no gesture starts a loop. *)
Lemma handle_without_camera (s : Script) (st : State) (g : Gesture) :
  isCameraLoaded st = false ->
  isCameraLoaded (handle s st g) = false /\
  loopsOf (handle s st g) = loopsOf st.
Proof.
  intros Hc. crush_state st.
  destruct s, g as [[| |] [|]|[|]|], r, l, b as [[|]|], a, p; cbv;
    repeat split.
Qed.

Lemma run_without_camera (s : Script) (gs : list Gesture) : forall st,
  isCameraLoaded st = false -> loopsOf (run s st gs) = loopsOf st.
Proof.
  induction gs as [|g gs IH]; intros st Hc; simpl; [reflexivity|].
  destruct (handle_without_camera s st g Hc) as [H1 H2].
  rewrite (IH _ H1). exact H2.
Qed.

(** While no audio listener exists and no [resume()] is pending, a click
    only writes on the button and every other gesture does nothing. *)
Lemma handle_no_listener (s : Script) (st : State) (g : Gesture) :
  listener st = false -> pendingResumes st = 0%nat ->
  handle s st g
  = (if isClick g
     then setDom st (setButtonText (dom st) "Error: Audio not ready")
     else st).
Proof.
  intros Hl Hp. crush_state st. destruct g as [ctx t|t|]; reflexivity.
Qed.

Lemma run_no_listener (s : Script) (gs : list Gesture) : forall st,
  listener st = false -> pendingResumes st = 0%nat ->
  run s st gs
  = (if existsb isClick gs
     then setDom st (setButtonText (dom st) "Error: Audio not ready")
     else st).
Proof.
  induction gs as [|g gs IH]; intros st Hl Hp; [reflexivity|].
  change (run s st (g :: gs)) with (run s (handle s st g) gs).
  rewrite (handle_no_listener s st g Hl Hp). simpl existsb.
  destruct (isClick g); simpl orb.
  - rewrite IH by (crush_state st; reflexivity).
    destruct (existsb isClick gs); [|reflexivity].
    crush_state st. reflexivity.
  - apply IH; assumption.
Qed.

Lemma onLoad_listener (s : Script) (cameras : list Loader.GltfCamera) :
  Loader.listener (Loader.onLoad s cameras)
  = Loader.isCameraLoaded (Loader.onLoad s cameras).
Proof.
  unfold Loader.onLoad.
  destruct (0 <? length cameras)%nat, (Loader.findCamera cameras), s;
    reflexivity.
Qed.

(** C2, as the scripts have it.  While the camera has not been loaded, no
    click and no settled [resume()] starts an animation loop, in either
    script and whatever the rest of the page.  The load callback creates
    the audio listener only together with a camera; so when the unlock
    gesture fires without a camera, the click listener finds no audio
    listener and returns after writing "Error: Audio not ready" on the
    button: nothing else changes, [sceneReady] stays as it was, and every
    later gesture is treated the same.  The fatal report ([main.js]: the
    overlay shown again with "Error: Camera Failed"; the earlier script: an
    alert) is what [startExperience] makes when it runs without a camera,
    after which it has no further effect; no gesture calls it then. *)
Theorem no_loop_without_camera (s : Script) (st : State) (gs : list Gesture) :
  isCameraLoaded st = false ->
  let st' := run s st gs in
  loopsOf st' = loopsOf st /\
  (forall cameras,
     Loader.isCameraLoaded (Loader.onLoad s cameras) = false ->
     Loader.listener (Loader.onLoad s cameras) = false) /\
  (listener st = false -> pendingResumes st = 0%nat ->
   st' = (if existsb isClick gs
          then setDom st (setButtonText (dom st) "Error: Audio not ready")
          else st) /\
   sceneReady st' = sceneReady st /\
   handle s st' (click running false) = handle s st (click running false)) /\
  (sceneReady st = false ->
   let failed := startExperience s st in
   loopsOf failed = loopsOf st /\
   clockStarts (effects failed) = clockStarts (effects st) /\
   cameraFailureReported s st failed /\
   sceneReady failed = true /\
   startExperience s failed = failed /\
   loopsOf (run s failed gs) = loopsOf st).
Proof.
  intros Hc st'. split; [apply run_without_camera, Hc|].
  split; [intros cameras H; rewrite onLoad_listener; exact H|].
  split.
  - intros Hl Hp. subst st'. rewrite (run_no_listener s gs st Hl Hp).
    split; [reflexivity|].
    destruct (existsb isClick gs); [|split; reflexivity].
    crush_state st. split; reflexivity.
  - intros Hr failed.
    destruct (startExperience_effect s st Hr) as (Hr' & _ & _ & _ & _ & _ & _ & Hl).
    fold failed in Hr', Hl. rewrite Hc in Hl.
    split; [exact Hl|]. split.
    { subst failed. crush_state st. unfold startExperience. simpl.
      destruct s; reflexivity. }
    split.
    { subst failed. crush_state st. unfold startExperience. simpl.
      destruct s; simpl; repeat split. }
    split; [exact Hr'|]. split; [apply startExperience_started, Hr'|].
    destruct (run_when_started s gs failed Hr') as (_ & K2 & _).
    congruence.
Qed.

Lemma no_loop_without_camera_witness :
  let st := Loader.install (Loader.onLoad part_000 []) notLoaded in
  let gs := [click running false; click suspended false; resumeFulfilled false] in
  let st' := run part_000 st gs in
  isCameraLoaded st = false /\ listener st = false /\
  loopsOf st' = 0%nat /\ sceneReady st' = false /\
  st' = setDom st (setButtonText (dom st) "Error: Audio not ready").
Proof.
  intros st gs st'.
  destruct (no_loop_without_camera part_000 st gs eq_refl) as (H1 & _ & H3 & _).
  destruct (H3 eq_refl eq_refl) as (E & Hr & _).
  split; [reflexivity|]. split; [reflexivity|].
  split; [exact H1|]. split; [exact Hr | exact E].
Defined.

(** C2 as it is worded fails: the unlock gesture that fires without a camera
    does not report a camera failure and does not enter a terminal state.
    In the earlier script, after loading a model file without cameras, a
    click leaves [sceneReady] false and the overlay, the progress text and
    the alerts as they were, whatever the state of the audio context; it
    only changes the text of the button, and so does the next click.  The
    same holds in [main.js] while the model file has not been loaded. *)
Lemma unlock_without_camera_reports_nothing :
  let st := Loader.install (Loader.onLoad part_000 []) notLoaded in
  let clicked (s : Script) (before : State) (ctx : ContextState) :=
    handle s before (click ctx false) in
  let unreported (s : Script) (before : State) (ctx : ContextState) :=
    ~ cameraFailureReported s before (clicked s before ctx) /\
    sceneReady (clicked s before ctx) = false /\
    clicked s before ctx
    = setDom before (setButtonText (dom before) "Error: Audio not ready") /\
    clicked s (clicked s before ctx) ctx = clicked s before ctx in
  (isCameraLoaded st = false /\ isCameraLoaded notLoaded = false) /\
  (unreported part_000 st suspended /\ unreported part_000 st running /\
   unreported part_000 st closed) /\
  (unreported main_js notLoaded suspended /\
   unreported main_js notLoaded running /\
   unreported main_js notLoaded closed).
Proof.
  cbv zeta. repeat split; try reflexivity;
    try (intros H; vm_compute in H; discriminate H);
    try (intros [H _]; vm_compute in H; discriminate H).
Qed.

(** ** Unlocking more than once *)

Lemma handle_atMostOnce (s : Script) (st : State) (g : Gesture) :
  atMostOnce st -> atMostOnce (handle s st g).
Proof.
  unfold atMostOnce. intros (H1 & H2 & H3 & H4). crush_state st.
  unfold loopsOf, playsOf in *. simpl in *.
  destruct s, g as [[| |] [|]|[|]|], c, r, l, b as [[|]|], a, p; cbv in *;
    repeat split; intros; try lia; try congruence;
    try (specialize (H1 eq_refl); lia);
    try (destruct plays as [|[|?]];
         [lia | specialize (H4 eq_refl); discriminate | lia]).
Qed.


Lemma handle_unlocking (s : Script) (st : State) (g : Gesture) (clicked : bool) :
  s = main_js \/ isRejection g = false ->
  atMostOnce st -> unlocking clicked st ->
  unlocking (clicked || isClick g) (handle s st g).
Proof.
  unfold atMostOnce, unlocking.
  intros Hs (H1 & H2 & H3 & H4) (K1 & K2 & K3 & K4). crush_state st.
  unfold loopsOf, playsOf in *. simpl in *.
  destruct s, g as [[| |] [|]|[|]|], r, b as [[|]|], a, p, clicked;
    cbv in *; repeat split; intros; try lia; try congruence;
    try (specialize (H1 eq_refl); lia);
    try (specialize (K4 eq_refl eq_refl); lia);
    try (destruct Hs; congruence).
Qed.

Lemma run_unlocking (s : Script) (gs : list Gesture) : forall st clicked,
  s = main_js \/ existsb isRejection gs = false ->
  atMostOnce st -> unlocking clicked st ->
  unlocking (clicked || existsb isClick gs) (run s st gs).
Proof.
  induction gs as [|g gs IH]; intros st clicked Hs Hm Hu; simpl.
  - rewrite orb_false_r. exact Hu.
  - rewrite orb_assoc. apply IH.
    + destruct Hs as [Hs|Hs]; [left; exact Hs|right].
      simpl in Hs. apply orb_false_iff in Hs. apply Hs.
    + apply handle_atMostOnce, Hm.
    + apply handle_unlocking; [|exact Hm|exact Hu].
      destruct Hs as [Hs|Hs]; [left; exact Hs|right].
      simpl in Hs. apply orb_false_iff in Hs. apply Hs.
Qed.




(** ** The canvas-sampled texture and double precision *)

Lemma canvas_dispose_idempotent (a : CanvasVideoTexture.t) :
  CanvasVideoTexture.dispose (CanvasVideoTexture.dispose a)
  = CanvasVideoTexture.dispose a.
Proof.
  destruct a as [v w h u d [id|] r]; unfold CanvasVideoTexture.dispose; simpl;
    reflexivity.
Qed.

(** After [dispose()] of a canvas-sampled texture no frame is requested any
    more, so the host never runs [updateCanvasTexture] again; the video is
    paused and has no source, and the texture is disposed; a second
    [dispose()] changes nothing. *)
Theorem canvas_dispose_releases (a : CanvasVideoTexture.t) (next : positive) :
  CanvasVideoTexture.linked a ->
  let a' := CanvasVideoTexture.dispose a in
  CanvasVideoTexture.dispose a' = a' /\
  CanvasVideoTexture.animationFrameId a' = None /\
  CanvasVideoTexture.requested a' = None /\
  CanvasVideoTexture.hostFrame a' next = a' /\
  CanvasVideoTexture.src (CanvasVideoTexture.video a') = None /\
  CanvasVideoTexture.elementPaused (CanvasVideoTexture.video a') = true /\
  CanvasVideoTexture.textureDisposed a' = true.
Proof.
  intros Hl a'. split; [apply canvas_dispose_idempotent|].
  subst a'. unfold CanvasVideoTexture.linked in Hl.
  destruct a as [v w h u d [id|] [r|]]; simpl in *;
    unfold CanvasVideoTexture.dispose, CanvasVideoTexture.hostFrame; simpl;
    destruct Hl as [Hl|Hl]; try discriminate;
    try (injection Hl as ->; rewrite Pos.eqb_refl);
    repeat split.
Qed.

Lemma canvas_dispose_releases_witness :
  let a := CanvasVideoTexture.mk
             (CanvasVideoTexture.mkElement (Some "assets/Luna_Moth_H.265.mov"%string)
                false 4 640 480)
             640 480 true false (Some 7%positive) (Some 7%positive) in
  CanvasVideoTexture.linked a /\
  CanvasVideoTexture.requested (CanvasVideoTexture.dispose a) = None /\
  CanvasVideoTexture.hostFrame (CanvasVideoTexture.dispose a) 8
  = CanvasVideoTexture.dispose a.
Proof.
  intros a.
  assert (Hl : CanvasVideoTexture.linked a) by (right; reflexivity).
  destruct (canvas_dispose_releases a 8 Hl) as (_ & _ & H2 & H3 & _).
  split; [exact Hl|]. split; [exact H2 | exact H3].
Defined.

(** In double precision too, a wheel event with [deltaY = 100] takes a
    velocity of 0 to exactly 1, and damping takes that to exactly 0.75. *)
Theorem wheel_then_damp_binary64 :
  Binary64.onWheel 0%float 100%float = 1%float /\
  Binary64.damp (Binary64.onWheel 0%float 100%float) = 0.75%float.
Proof. split; vm_compute; reflexivity. Qed.

(** ** When resuming the audio context fails *)



(** ** The background sound *)

Lemma handle_sound (s : Script) (st : State) (g : Gesture) :
  let st' := handle s st g in
  (keepsSilent g = true ->
   playsOf st' = playsOf st /\
   audioContextResumed st' = audioContextResumed st /\
   backgroundSound st' = backgroundSound st) /\
  (playsOf st' = playsOf st \/
   playsOf st' = S (playsOf st) /\ backgroundSound st = Some false /\
   audioContextResumed st' = true /\ backgroundSound st' = Some true) /\
  (audioContextResumed st = true -> audioContextResumed st' = true) /\
  (backgroundSound st = Some true -> backgroundSound st' = Some true).
Proof.
  intros st'. subst st'. crush_state st. unfold playsOf. simpl.
  destruct s, g as [[| |] [|]|[|]|], c, r, l, b as [[|]|], a, p; cbv;
    repeat split; auto; try discriminate.
Qed.

(** In either script, whatever the page and the gestures: the background
    sound is started only by a click that finds the audio context running
    or by a fulfilled [resume()], never by a click on a suspended or closed
    context or by a rejected [resume()]; and whenever a run of gestures has
    started it, the context is marked as resumed and the sound as playing. *)
Theorem sound_needs_running_context (s : Script) (st : State)
    (gs : list Gesture) :
  let st' := run s st gs in
  (forallb keepsSilent gs = true ->
   playsOf st' = playsOf st /\
   audioContextResumed st' = audioContextResumed st /\
   backgroundSound st' = backgroundSound st) /\
  (playsOf st' <> playsOf st ->
   audioContextResumed st' = true /\ backgroundSound st' = Some true).
Proof.
  intros st'. subst st'. split.
  - revert st. induction gs as [|g gs IH]; intros st Hs; [repeat split|].
    simpl in Hs. apply andb_true_iff in Hs as [Hg Hs].
    destruct (handle_sound s st g) as (H1 & _).
    destruct (H1 Hg) as (E1 & E2 & E3).
    destruct (IH (handle s st g) Hs) as (K1 & K2 & K3).
    simpl. repeat split; congruence.
  - revert st. induction gs as [|g gs IH]; intros st Hne; [contradiction|].
    simpl in *. destruct (handle_sound s st g) as (_ & H2 & _).
    destruct (Nat.eq_dec (playsOf (run s (handle s st g) gs))
                (playsOf (handle s st g))) as [E|E].
    + destruct H2 as [H2|(_ & _ & Ha & Hb)]; [congruence|].
      clear IH Hne E. revert Ha Hb. generalize (handle s st g) as st1.
      induction gs as [|g' gs IH]; intros st1 Ha Hb; [split; assumption|].
      simpl. destruct (handle_sound s st1 g') as (_ & _ & K3 & K4).
      apply IH; [apply K3, Ha | apply K4, Hb].
    + apply IH, E.
Qed.

(** ** The page after loading, and the unlock button *)

Lemma handle_without_listener (s : Script) (st : State) (g : Gesture) :
  listener st = false -> pendingResumes st = 0%nat ->
  let st' := handle s st g in
  listener st' = false /\ pendingResumes st' = 0%nat /\
  sceneReady st' = sceneReady st /\ loopsOf st' = loopsOf st /\
  overlayHidden (dom st') = overlayHidden (dom st) /\
  buttonHidden (dom st') = buttonHidden (dom st) /\
  buttonText (dom st')
  = (if isClick g then "Error: Audio not ready"%string else buttonText (dom st)).
Proof.
  intros Hl Hp st'. subst st'. crush_state st.
  destruct g as [ctx t|t|]; cbv; repeat split.
Qed.

Lemma run_without_listener (s : Script) (gs : list Gesture) : forall st,
  listener st = false -> pendingResumes st = 0%nat ->
  let st' := run s st gs in
  sceneReady st' = sceneReady st /\ loopsOf st' = loopsOf st /\
  overlayHidden (dom st') = overlayHidden (dom st) /\
  buttonHidden (dom st') = buttonHidden (dom st) /\
  buttonText (dom st')
  = (if existsb isClick gs then "Error: Audio not ready"%string
     else buttonText (dom st)).
Proof.
  induction gs as [|g gs IH] using rev_ind; intros st Hl Hp; [repeat split|].
  unfold run in *. rewrite fold_left_app, existsb_app. simpl.
  destruct (IH st Hl Hp) as (K1 & K2 & K3 & K4 & K5).
  assert (Hkeep : listener (fold_left (handle s) gs st) = false /\
                  pendingResumes (fold_left (handle s) gs st) = 0%nat).
  { clear IH K1 K2 K3 K4 K5. revert st Hl Hp.
    induction gs as [|g' gs IH]; intros st Hl Hp; [split; assumption|].
    simpl. destruct (handle_without_listener s st g' Hl Hp) as (H1 & H2 & _).
    apply IH; assumption. }
  destruct Hkeep as [Hl' Hp'].
  destruct (handle_without_listener s _ g Hl' Hp')
    as (_ & _ & H3 & H4 & H5 & H6 & H7).
  rewrite H3, H4, H5, H6, H7, K1, K2, K3, K4, K5, orb_false_r.
  repeat split.
  destruct (isClick g); [rewrite orb_true_r; reflexivity|].
  rewrite orb_false_r. reflexivity.
Qed.

Lemma handle_overlay (s : Script) (st : State) (g : Gesture) :
  isCameraLoaded st = true ->
  (sceneReady st = true -> overlayHidden (dom st) = true) ->
  sceneReady (handle s st g) = true ->
  overlayHidden (dom (handle s st g)) = true.
Proof.
  intros Hc. crush_state st.
  destruct s, g as [[| |] [|]|[|]|], r, l, b as [[|]|], a, p; cbv;
    intros H1 H2; try reflexivity; try discriminate; apply H1; reflexivity.
Qed.

Lemma run_overlay (s : Script) (gs : list Gesture) : forall st,
  isCameraLoaded st = true ->
  (sceneReady st = true -> overlayHidden (dom st) = true) ->
  sceneReady (run s st gs) = true ->
  overlayHidden (dom (run s st gs)) = true.
Proof.
  induction gs as [|g gs IH]; intros st Hc Ho; [exact Ho|].
  simpl. apply IH.
  - crush_state st.
    destruct s, g as [[| |] [|]|[|]|], r, l, b as [[|]|], a, p; reflexivity.
  - apply handle_overlay; assumption.
Qed.

(** From loading the model file to the unlock button, for any list of
    cameras in the file.  With a camera in place, hence always in
    [main.js], the page starts exactly one animation loop and hides the
    overlay once the button was clicked and every [resume()] it started has
    settled (for the earlier script: without rejection).  Without one, which
    only the earlier script allows, no gesture starts anything: the overlay
    stays, and a click only writes "Error: Audio not ready" on the button. *)
Theorem load_then_unlock (s : Script) (cameras : list Loader.GltfCamera)
    (gs : list Gesture) :
  let o := Loader.onLoad s cameras in
  let st' := run s (Loader.install o notLoaded) gs in
  (s = main_js -> Loader.isCameraLoaded o = true) /\
  (Loader.isCameraLoaded o = true ->
   existsb isClick gs = true -> pendingResumes st' = 0%nat ->
   s = main_js \/ existsb isRejection gs = false ->
   loopsOf st' = 1%nat /\ sceneReady st' = true /\
   overlayHidden (dom st') = true) /\
  (Loader.isCameraLoaded o = false ->
   loopsOf st' = 0%nat /\ sceneReady st' = false /\
   overlayHidden (dom st') = false /\
   (existsb isClick gs = true ->
    buttonText (dom st') = "Error: Audio not ready"%string)).
Proof.
  intros o st'.
  assert (Hlis : Loader.listener o = Loader.isCameraLoaded o).
  { subst o. unfold Loader.onLoad.
    destruct (0 <? length cameras)%nat, (Loader.findCamera cameras), s;
      reflexivity. }
  split.
  { intros ->. subst o. unfold Loader.onLoad.
    destruct (0 <? length cameras)%nat, (Loader.findCamera cameras);
      reflexivity. }
  clearbody o. split.
  - intros Hcam Hclick Hdone Hs.
    set (st := Loader.install o notLoaded) in *.
    assert (Hm : atMostOnce st).
    { unfold atMostOnce. repeat split; intros; try (cbv; lia).
      discriminate. }
    assert (Hu : unlocking false st).
    { unfold unlocking. subst st. simpl. rewrite Hlis, Hcam.
      repeat split; intros; discriminate. }
    pose proof (run_unlocking s gs st false Hs Hm Hu) as (_ & _ & U3 & U4).
    fold st' in U3, U4. simpl in U4. rewrite Hclick in U4.
    assert (Hready : sceneReady st' = true).
    { destruct (sceneReady st') eqn:E; [reflexivity|].
      specialize (U4 eq_refl eq_refl). lia. }
    split; [apply U3, Hready|]. split; [exact Hready|].
    apply run_overlay; [exact Hcam | discriminate | exact Hready].
  - intros Hcam. set (st := Loader.install o notLoaded) in *.
    assert (Hl : listener st = false) by (subst st; simpl; congruence).
    destruct (run_without_listener s gs st Hl eq_refl)
      as (K1 & K2 & K3 & _ & K5).
    fold st' in K1, K2, K3, K5.
    split; [exact K2|]. split; [exact K1|]. split; [exact K3|].
    intros Hclick. rewrite K5, Hclick. reflexivity.
Qed.

(** ** The unlock button under the loading manager *)

Lemma call_button (d : Dom) (c : LoadingManager.Callback) :
  buttonDisplay (LoadingManager.call d c)
  = default (buttonDisplay d) (buttonSetBy c).
Proof. destruct c; reflexivity. Qed.

(** Whatever callbacks the loading manager makes, the unlock button is
    displayed afterwards exactly when the last of the callbacks that set it
    was the timeout that follows [onLoad]: a start or an error hides it, and
    progress and [onLoad] itself leave it alone.  In particular an error
    reported before the load completes does not keep the button away. *)
Theorem button_follows_last_callback (d : Dom)
    (cs : list LoadingManager.Callback) :
  buttonDisplay (fold_left LoadingManager.call cs d)
  = default (buttonDisplay d) (lastButtonSetting cs) /\
  (forall url before,
     cs = before ++ [LoadingManager.failed url; LoadingManager.loadedAll;
                     LoadingManager.timeoutFired] ->
     buttonDisplay (fold_left LoadingManager.call cs d) = block /\
     progressDisplay (fold_left LoadingManager.call cs d) = none /\
     progressText (fold_left LoadingManager.call cs d)
     = "Loading complete!"%string).
Proof.
  split.
  - unfold lastButtonSetting.
    induction cs as [|c cs IH] using rev_ind; [reflexivity|].
    rewrite !fold_left_app. simpl. rewrite call_button, IH.
    destruct (buttonSetBy c); reflexivity.
  - intros url before ->. rewrite fold_left_app. simpl. repeat split.
Qed.
